(** * seekerproject4se/scripts: the extraction pipeline of [search_puppeteer.js]

    A shallow embedding of the page scraper: the regular expressions of
    the script, the [String.prototype] methods it calls on them, the
    insertion-ordered [Set] it deduplicates with, the sequential PDF loop
    with its two fallible helpers, the donor-profile loop, and the
    try/catch/finally frame that decides what reaches the disk, stdout
    and stderr. *)

From Stdlib Require Import NArith Ascii String.
From stdpp Require Import base option list gmap.

Local Open Scope N_scope.

(** ** JavaScript strings

    A JavaScript string is a sequence of UTF-16 code units.  Code units
    are modelled as [N], so that the character classes below are total
    over everything a page can contain. *)

Abbreviation jsstring := (list N).

Definition chr (a : ascii) : N := N_of_ascii a.

(** [js "abc"] is the JavaScript string with the code units of an ASCII
    literal. *)
Fixpoint js (s : string) : jsstring :=
  match s with
  | EmptyString => []
  | String a s' => chr a :: js s'
  end.

Definition LF : N := 10.
Definition CR : N := 13.
Definition SP : N := 32.

Definition between (lo hi c : N) : bool := (lo <=? c) && (c <=? hi).

(** [\d] *)
Definition isDigit (c : N) : bool := between (chr "0") (chr "9") c.
(** [[A-Z]] and [[a-z]] *)
Definition isUpper (c : N) : bool := between (chr "A") (chr "Z") c.
Definition isLower (c : N) : bool := between (chr "a") (chr "z") c.
(** [\w]: without the [u] and [i] flags this is [[A-Za-z0-9_]]. *)
Definition isWordChar (c : N) : bool :=
  isLower c || isUpper c || isDigit c || (c =? chr "_").
(** [\s], also the characters [trim] strips: ECMAScript WhiteSpace (TAB,
    VT, FF, SP, NBSP, ZWNBSP and the Unicode space separators) and
    LineTerminator (LF, CR, LS, PS). *)
Definition isWhiteSpace (c : N) : bool :=
  between 9 13 c || (c =? 32) || (c =? 160) || (c =? 5760)
  || between 8192 8202 c || (c =? 8232) || (c =? 8233) || (c =? 8239)
  || (c =? 8287) || (c =? 12288) || (c =? 65279).

Definition oneOf (cs : list N) (c : N) : bool := existsb (N.eqb c) cs.

(** ** Regular expressions, with the backtracking semantics of ECMAScript *)

Module RegExp.

Inductive regex : Type :=
| Empty                                        (* the empty pattern *)
| CharSet (p : N -> bool)                      (* one code unit of a class *)
| Seq (r1 r2 : regex)                          (* r1 r2 *)
| Quant (r : regex) (min : nat) (max : option nat)  (* greedy r{min,max} *)
| Group (n : nat) (r : regex)                  (* capturing group number n *)
| AssertStart                                  (* ^ *)
| AssertEnd                                    (* $ *)
| WordBoundary.                                (* \b *)

Definition Char (c : N) : regex := CharSet (N.eqb c).
Definition Opt (r : regex) : regex := Quant r 0 (Some 1%nat).    (* r? *)
Definition Star (r : regex) : regex := Quant r 0 None.           (* r* *)
Definition Plus (r : regex) : regex := Quant r 1 None.           (* r+ *)
Definition Times (r : regex) (n : nat) : regex := Quant r n (Some n).  (* r{n} *)

Fixpoint Cat (rs : list regex) : regex :=
  match rs with
  | [] => Empty
  | [r] => r
  | r :: rs' => Seq r (Cat rs')
  end.

(** A literal string as a pattern. *)
Definition Lit (s : jsstring) : regex := Cat (map Char s).

(** The numbers of the capturing groups inside a pattern. *)
Fixpoint groups (r : regex) : list nat :=
  match r with
  | Seq r1 r2 => groups r1 ++ groups r2
  | Quant r _ _ => groups r
  | Group n r => n :: groups r
  | _ => []
  end.

(** The state of a match: the input before the current position (latest
    code unit first), the input from it on, and the captures so far. *)
Record MatchState : Type := mkState {
  seen : jsstring;
  rest : jsstring;
  captures : list (nat * jsstring)
}.

Definition endIndex (x : MatchState) : nat := length (seen x).

Definition Continuation : Type := MatchState -> option MatchState.
Definition Matcher : Type := MatchState -> Continuation -> option MatchState.

(** The input consumed between state [x] and the later state [y]. *)
Definition consumed (x y : MatchState) : jsstring :=
  rev (take (endIndex y - endIndex x) (seen y)).

Definition clearCaptures (gs : list nat) (x : MatchState) : MatchState :=
  mkState (seen x) (rest x)
          (filter (fun kv => bool_decide (kv.1 ∉ gs)) (captures x)).

Definition setCapture (n : nat) (s : jsstring) (y : MatchState) : MatchState :=
  mkState (seen y) (rest y) ((n, s) :: captures y).

Definition decr (max : option nat) : option nat := Nat.pred <$> max.

(** RepeatMatcher of the language specification (greedy quantifiers
    only).  Every call either lowers [min] or, once [min] is 0, is made
    on a state further in the input (an iteration that consumes nothing
    is rejected), so [min + length (rest x) + 1] calls are enough;
    [fuel] counts them. *)
Fixpoint repeatMatcher (fuel : nat) (m : Matcher) (gs : list nat)
    (min : nat) (max : option nat) (x : MatchState) (c : Continuation)
    : option MatchState :=
  match fuel with
  | O => None
  | S fuel' =>
      if bool_decide (max = Some O) then c x
      else
        let d : Continuation := fun y =>
          if bool_decide (min = O) && bool_decide (endIndex y = endIndex x)
          then None
          else repeatMatcher fuel' m gs (Nat.pred min) (decr max) y c in
        let xr := clearCaptures gs x in
        if bool_decide (min ≠ O) then m xr d
        else match m xr d with
             | Some z => Some z
             | None => c x
             end
  end.

Definition isWordAt (s : jsstring) : bool :=
  match s with
  | c :: _ => isWordChar c
  | [] => false
  end.

Fixpoint matcher (r : regex) (x : MatchState) (c : Continuation)
    : option MatchState :=
  match r with
  | Empty => c x
  | CharSet p =>
      match rest x with
      | ch :: s => if p ch then c (mkState (ch :: seen x) s (captures x))
                   else None
      | [] => None
      end
  | Seq r1 r2 => matcher r1 x (fun y => matcher r2 y c)
  | Quant r' min max =>
      repeatMatcher (min + length (rest x) + 1) (matcher r') (groups r')
                    min max x c
  | Group n r' =>
      matcher r' x (fun y => c (setCapture n (consumed x y) y))
  | AssertStart => match seen x with [] => c x | _ => None end
  | AssertEnd => match rest x with [] => c x | _ => None end
  | WordBoundary =>
      if xorb (isWordAt (seen x)) (isWordAt (rest x)) then c x else None
  end.

(** One attempt at the current position (what a sticky match does):
    the end state of the match, if any. *)
Definition matchAt (r : regex) (before after : jsstring) : option MatchState :=
  matcher r (mkState before after []) Some.

(** The matched substring of an attempt made with [before] in front. *)
Definition matched (before : jsstring) (y : MatchState) : jsstring :=
  rev (take (length (seen y) - length before) (seen y)).

Fixpoint lookupCapture (cs : list (nat * jsstring)) (n : nat) : option jsstring :=
  match cs with
  | [] => None
  | (k, v) :: cs' => if bool_decide (k = n) then Some v else lookupCapture cs' n
  end.

(** The array a successful [exec] returns: element 0 is the match,
    element [n] the capture of group [n] ([None] is [undefined]). *)
Record MatchResult : Type := mkResult {
  whole : jsstring;
  group : nat -> option jsstring
}.

Definition resultOf (before : jsstring) (y : MatchState) : MatchResult :=
  mkResult (matched before y) (lookupCapture (captures y)).

(** [exec] of a pattern without the [g] flag: the leftmost position
    where an attempt succeeds. *)
Fixpoint exec (r : regex) (before after : jsstring) : option MatchResult :=
  match matchAt r before after with
  | Some y => Some (resultOf before y)
  | None =>
      match after with
      | [] => None
      | c :: after' => exec r (c :: before) after'
      end
  end.

(** The matches of a pattern with the [g] flag, left to right: after a
    match the search resumes at its end, one code unit later when the
    match is empty.  [skip] counts the code units still inside the last
    match. *)
Fixpoint scan (r : regex) (before after : jsstring) (skip : nat) : list jsstring :=
  match skip with
  | S n =>
      match after with
      | [] => []
      | c :: after' => scan r (c :: before) after' n
      end
  | O =>
      match matchAt r before after with
      | Some y =>
          let m := matched before y in
          m :: match after with
               | [] => []
               | c :: after' => scan r (c :: before) after' (Nat.pred (length m))
               end
      | None =>
          match after with
          | [] => []
          | c :: after' => scan r (c :: before) after' O
          end
      end
  end.

(** [s.replace(r, repl)] for a pattern with the [g] flag and a
    replacement string without [$]. *)
Fixpoint substitute (r : regex) (repl : jsstring) (before after : jsstring)
    (skip : nat) : jsstring :=
  match skip with
  | S n =>
      match after with
      | [] => []
      | c :: after' => substitute r repl (c :: before) after' n
      end
  | O =>
      match matchAt r before after with
      | Some y =>
          repl ++ match after with
                  | [] => []
                  | c :: after' =>
                      match length (matched before y) with
                      | O => c :: substitute r repl (c :: before) after' O
                      | S n => substitute r repl (c :: before) after' n
                      end
                  end
      | None =>
          match after with
          | [] => []
          | c :: after' => c :: substitute r repl (c :: before) after' O
          end
      end
  end.

(** [s.replace(r, repl)] for a pattern without the [g] flag: only the
    leftmost match is replaced. *)
Fixpoint substituteFirst (r : regex) (repl : jsstring) (before after : jsstring)
    : jsstring :=
  match matchAt r before after with
  | Some y => repl ++ rest y
  | None =>
      match after with
      | [] => []
      | c :: after' => c :: substituteFirst r repl (c :: before) after'
      end
  end.

(** [s.split(r)]: [cur] is the piece being collected (latest code unit
    first).  A separator match that is empty at the start of a piece is
    passed over. *)
Fixpoint cut (r : regex) (before cur after : jsstring) (skip : nat)
    : list jsstring :=
  match skip with
  | S n =>
      match after with
      | [] => [rev cur]
      | c :: after' => cut r (c :: before) cur after' n
      end
  | O =>
      match after with
      | [] => [rev cur]
      | c :: after' =>
          match matchAt r before after with
          | Some y =>
              match length (matched before y) with
              | O => match cur with
                     | [] => cut r (c :: before) [c] after' O
                     | _ => rev cur :: cut r (c :: before) [c] after' O
                     end
              | S n => rev cur :: cut r (c :: before) [] after' n
              end
          | None => cut r (c :: before) (c :: cur) after' O
          end
      end
  end.

End RegExp.

(** ** The [String.prototype] methods the script calls *)

Module Str.
Import RegExp.

(** [s.match(r)] with the [g] flag: the array of matches, [null]
    ([None]) when there is none. *)
Definition match_g (s : jsstring) (r : regex) : option (list jsstring) :=
  match scan r [] s O with
  | [] => None
  | ms => Some ms
  end.

(** [s.match(r)] without the [g] flag. *)
Definition match_ (s : jsstring) (r : regex) : option MatchResult :=
  exec r [] s.

Definition replace_g (s : jsstring) (r : regex) (repl : jsstring) : jsstring :=
  substitute r repl [] s O.

Definition replace (s : jsstring) (r : regex) (repl : jsstring) : jsstring :=
  substituteFirst r repl [] s.

(** [s.replace(pat, repl)] with a string pattern: its first occurrence. *)
Definition replace_str (s pat repl : jsstring) : jsstring :=
  substituteFirst (Lit pat) repl [] s.

Definition split (s : jsstring) (r : regex) : list jsstring :=
  match s with
  | [] => match matchAt r [] [] with Some _ => [] | None => [[]] end
  | _ => cut r [] [] s O
  end.

Fixpoint trimStart (s : jsstring) : jsstring :=
  match s with
  | c :: s' => if isWhiteSpace c then trimStart s' else s
  | [] => []
  end.

Definition trimEnd (s : jsstring) : jsstring := rev (trimStart (rev s)).

Definition trim (s : jsstring) : jsstring := trimEnd (trimStart s).

(** Truthiness of a string: [Boolean(s)], [!s], [s || t]. *)
Definition truthy (s : jsstring) : bool :=
  match s with [] => false | _ => true end.

Definition startsWith (s pre : jsstring) : bool :=
  bool_decide (take (length pre) s = pre).

Definition endsWith (s suf : jsstring) : bool :=
  bool_decide (drop (length s - length suf) s = suf).

End Str.

(** [x || []] on the result of [match]. *)
Definition orEmpty {A} (x : option (list A)) : list A := default [] x.

(** ** The insertion-ordered [Set] *)

Module JSSet.

Definition has (s : list jsstring) (x : jsstring) : bool := bool_decide (x ∈ s).

Definition add (s : list jsstring) (x : jsstring) : list jsstring :=
  if has s x then s else s ++ [x].

(** [new Set(array)] adds the elements in array order; [[...set]] lists
    them in insertion order. *)
Definition ofArray (l : list jsstring) : list jsstring := foldl add [] l.

End JSSet.

(** ** The patterns of [search_puppeteer.js] *)

Module Patterns.
Import RegExp.

(** [[a-zA-Z]] *)
Definition isLetter (c : N) : bool := isLower c || isUpper c.
(** [[a-zA-Z0-9._%+-]] *)
Definition isLocalPart (c : N) : bool :=
  isLower c || isUpper c || isDigit c || oneOf (js "._%+-") c.
(** [[a-zA-Z0-9.-]] *)
Definition isDomain (c : N) : bool :=
  isLower c || isUpper c || isDigit c || oneOf (js ".-") c.
(** [[-.\s]] *)
Definition isSeparator (c : N) : bool :=
  (c =? chr "-") || (c =? chr ".") || isWhiteSpace c.
(** [[1-9]] *)
Definition isNonZeroDigit (c : N) : bool := between (chr "1") (chr "9") c.

(** [/[a-zA-Z0-9._%+-]+@[a-zA-Z0-9.-]+\.[a-zA-Z]{2,7}/g] *)
Definition emailPattern : regex :=
  Cat [ Plus (CharSet isLocalPart); Char (chr "@"); Plus (CharSet isDomain);
        Char (chr "."); Quant (CharSet isLetter) 2 (Some 7%nat) ].

(** [/\+?[1-9]\d{1,2}[-.\s]?\(?\d{3}\)?[-.\s]?\d{3}[-.\s]?\d{4}/g] *)
Definition phonePattern : regex :=
  Cat [ Opt (Char (chr "+")); CharSet isNonZeroDigit;
        Quant (CharSet isDigit) 1 (Some 2%nat);
        Opt (CharSet isSeparator); Opt (Char (chr "("));
        Times (CharSet isDigit) 3; Opt (Char (chr ")"));
        Opt (CharSet isSeparator); Times (CharSet isDigit) 3;
        Opt (CharSet isSeparator); Times (CharSet isDigit) 4 ].

(** [/\d{1,5}\s\w+(\s\w+)*,\s\w+(\s\w+)*,\s[A-Z]{2}\s\d{5}/g] *)
Definition addressPattern : regex :=
  Cat [ Quant (CharSet isDigit) 1 (Some 5%nat); CharSet isWhiteSpace;
        Plus (CharSet isWordChar);
        Star (Group 1 (Seq (CharSet isWhiteSpace) (Plus (CharSet isWordChar))));
        Char (chr ","); CharSet isWhiteSpace; Plus (CharSet isWordChar);
        Star (Group 2 (Seq (CharSet isWhiteSpace) (Plus (CharSet isWordChar))));
        Char (chr ","); CharSet isWhiteSpace; Times (CharSet isUpper) 2;
        CharSet isWhiteSpace; Times (CharSet isDigit) 5 ].

(** [/\$?\d{1,3}(?:,\d{3})*(?:\.\d{2})?/g] *)
Definition donationPattern : regex :=
  Cat [ Opt (Char (chr "$")); Quant (CharSet isDigit) 1 (Some 3%nat);
        Star (Seq (Char (chr ",")) (Times (CharSet isDigit) 3));
        Opt (Seq (Char (chr ".")) (Times (CharSet isDigit) 2)) ].

(** [/\b([A-Z][a-z]+ [A-Z][a-z]+)\b/] *)
Definition namePattern : regex :=
  Cat [ WordBoundary;
        Group 1 (Cat [ CharSet isUpper; Plus (CharSet isLower); Char SP;
                       CharSet isUpper; Plus (CharSet isLower) ]);
        WordBoundary ].

(** [/[-.\s]+/g], the separator runs of a phone number *)
Definition separatorRun : regex := Plus (CharSet isSeparator).

(** [/\r?\n/], the line breaks the donor loop splits on *)
Definition lineBreak : regex := Seq (Opt (Char CR)) (Char LF).

(** [/^https?:\/\//], [/\/$/] and [/[\/:.]/g] of [sanitizeUrl] *)
Definition protocolPrefix : regex :=
  Cat [ AssertStart; Lit (js "http"); Opt (Char (chr "s")); Lit (js "://") ].
Definition trailingSlash : regex := Seq (Char (chr "/")) AssertEnd.
Definition pathPunctuation : regex := CharSet (oneOf (js "/:.")).

End Patterns.

(** ** The data the script builds *)

Module Found.
(** The [extracted] object of a PDF record. *)
Record t : Type := mk {
  emails : list jsstring;
  phones : list jsstring;
  addresses : list jsstring;
  donations : list jsstring
}.
End Found.

Record PDFRecord : Type := mkPDFRecord {
  url : jsstring;
  text : jsstring;
  extracted : Found.t
}.

Record DonorProfile : Type := mkDonorProfile {
  name : jsstring;
  emails : list jsstring;
  phones : list jsstring
}.

(** The [data] object written to [extracted_data.json]. *)
Record ResultRecord : Type := mkResultRecord {
  Emails : list jsstring;
  Phones : list jsstring;
  Addresses : list jsstring;
  Donations : list jsstring;
  PDFLinks : list jsstring;
  PDFData : list PDFRecord;
  RawText : jsstring;
  Donors : list DonorProfile
}.

(** ** Exceptions and effects

    An exception carries its [message].  The effects of a run are the
    files and directories it writes and the lines it prints. *)

Definition Error : Type := jsstring.

Inductive Text : Type :=
| Plain (s : jsstring)
| Stringify (d : ResultRecord) (indent : nat).   (* JSON.stringify(d, null, indent) *)

Record Effects : Type := mkEffects {
  files : gmap jsstring Text;       (* fs.writeFileSync *)
  dirs : list jsstring;             (* fs.mkdirSync *)
  stdout : list Text;               (* console.log *)
  stderr : list Text;               (* console.error *)
  browserClosed : bool              (* browser.close *)
}.

Definition noEffects : Effects := mkEffects ∅ [] [] [] false.

Definition M (A : Type) : Type := Effects -> Effects * (Error + A).

Definition ret {A} (a : A) : M A := fun s => (s, inr a).

Definition bind {A B} (m : M A) (k : A -> M B) : M B :=
  fun s => match m s with
           | (s', inr a) => k a s'
           | (s', inl e) => (s', inl e)
           end.

Definition throw {A} (e : Error) : M A := fun s => (s, inl e).

(** An awaited call that resolves or rejects. *)
Definition await {A} (r : Error + A) : M A := fun s => (s, r).

(** Synchronous code without effects that returns or throws. *)
Definition sync {A} (r : Error + A) : M A := fun s => (s, r).

Definition tryCatch {A} (body : M A) (handler : Error -> M A) : M A :=
  fun s => match body s with
           | (s', inl e) => handler e s'
           | other => other
           end.

Definition tryCatchFinally {A} (body : M A) (handler : Error -> M A)
    (finalizer : M unit) : M A :=
  fun s => match tryCatch body handler s with
           | (s', r) =>
               match finalizer s' with
               | (s'', inl e) => (s'', inl e)
               | (s'', inr _) => (s'', r)
               end
           end.

Declare Scope js_scope.
Delimit Scope js_scope with js.
Notation "x <- m ;; k" := (bind m (fun x => k))
  (at level 100, m at next level, right associativity) : js_scope.
Notation "m ;;; k" := (bind m (fun _ => k))
  (at level 100, right associativity) : js_scope.
Local Open Scope js_scope.

(** [for (const x of xs)] with a loop-carried value. *)
Fixpoint forOf {A S} (xs : list A) (body : S -> A -> M S) (s : S) : M S :=
  match xs with
  | [] => ret s
  | x :: xs' => s' <- body s x ;; forOf xs' body s'
  end.

(** Strings joined by single spaces. *)
Fixpoint spaced (args : list jsstring) : jsstring :=
  match args with
  | [] => []
  | [a] => a
  | a :: args' => a ++ SP :: spaced args'
  end.

(** [console.log] of one argument, printed as it is. *)
Definition consoleLog (t : Text) : M unit :=
  fun s => (mkEffects (files s) (dirs s) (stdout s ++ [t]) (stderr s)
                      (browserClosed s), inr tt).

(** Lines printed by [console.log], one call each. *)
Definition logLines (lines : list jsstring) : M unit :=
  fun s => (mkEffects (files s) (dirs s) (stdout s ++ map Plain lines) (stderr s)
                      (browserClosed s), inr tt).

(** [fs.writeFileSync]: [refused] is the answer of the file system, the
    error it throws when it does not accept the write. *)
Definition writeFileSync (refused : option Error) (path : jsstring) (t : Text)
    : M unit :=
  fun s => match refused with
           | Some e => (s, inl e)
           | None =>
               (mkEffects (<[path := t]> (files s)) (dirs s) (stdout s) (stderr s)
                          (browserClosed s), inr tt)
           end.

Definition readFileSync (path : jsstring) : M Text :=
  fun s => match files s !! path with
           | Some t => (s, inr t)
           | None =>
               (s, inl (js "ENOENT: no such file or directory, open '" ++ path
                          ++ js "'"))
           end.

Definition mkdirSync (path : jsstring) : M unit :=
  fun s => (mkEffects (files s) (dirs s ++ [path]) (stdout s) (stderr s)
                      (browserClosed s), inr tt).

Definition browserClose : M unit :=
  fun s => (mkEffects (files s) (dirs s) (stdout s) (stderr s) true, inr tt).

(** ** The collaborators

    What the browser, [path.join], [pdf-parse], [util.format] and the
    file system answer is not decided by the script; a [World] fixes
    their answers for one run.  The browser is taken to launch and to
    close.  The directory of the run is taken to be writable: [mkdir]
    and the write of [extracted_data.json] succeed.  The write of a
    downloaded file (line 32) can be refused: the script names the file
    after the address alone (line 108), and a name that is too long is
    not accepted, so the answer is fixed per address. *)

Record Anchor : Type := mkAnchor {
  hrefAttribute : jsstring;    (* what the selectors [a[href^=...]] test *)
  href : jsstring              (* [link.href], the resolved address *)
}.

Record Document : Type := mkDocument {
  innerText : jsstring;             (* document.body.innerText *)
  anchors : list Anchor;            (* the [a] elements, in document order *)
  innerHTML : Error + jsstring      (* waitForSelector('body'), then the
                                       innerHTML of the iframe or the body *)
}.

Record World : Type := mkWorld {
  argv2 : jsstring;                            (* process.argv[2] *)
  dirname : jsstring;                          (* __dirname *)
  pathJoin : jsstring -> jsstring -> jsstring; (* path.join *)
  goto : jsstring -> Error + Document;         (* page.goto(url, ...) *)
  pdf : Text -> Error + jsstring;              (* (await pdf(buffer)).text *)
  utilFormat : jsstring -> list jsstring -> jsstring;
                                               (* what util.format makes of a
                                                  first argument from its first
                                                  % on and of the arguments
                                                  after it *)
  pdfLog : Text -> list jsstring;              (* the lines pdf-parse prints
                                                  with console.log while it
                                                  parses *)
  saveError : jsstring -> option Error         (* the error fs.writeFileSync
                                                  throws at line 32 for the
                                                  file of an address *)
}.

(** The part of a string before its first [%], and the rest. *)
Fixpoint atPercent (s : jsstring) : jsstring * jsstring :=
  match s with
  | [] => ([], [])
  | c :: t =>
      if c =? chr "%" then ([], s)
      else let '(before, rest) := atPercent t in (c :: before, rest)
  end.

(** What [console.error] prints for string arguments.  One argument is
    printed as it is.  Of several, the first is a format string: without
    a [%] in it the arguments are joined by spaces; with one, what stands
    before the first [%] is printed as it is and [util.format] decides
    the rest. *)
Definition consoleFormat (w : World) (args : list jsstring) : jsstring :=
  match args with
  | [] => []
  | [a] => a
  | a :: more =>
      match atPercent a with
      | (_, []) => spaced args
      | (before, placeholders) => before ++ utilFormat w placeholders more
      end
  end.

Definition consoleError (w : World) (args : list jsstring) : M unit :=
  fun s => (mkEffects (files s) (dirs s) (stdout s)
                      (stderr s ++ [Plain (consoleFormat w args)]) (browserClosed s),
            inr tt).

(** ** The entity extractor (lines 69 to 92) *)

Module Entities.
Import RegExp Patterns.

(** [phone => phone.replace(/[-.\s]+/g, ' ').trim()], at lines 81 and 147 *)
Definition cleanPhone (phone : jsstring) : jsstring :=
  Str.trim (Str.replace_g phone separatorRun (js " ")).

(** [link => link.href.replace('mailto:', '').trim()] over the anchors
    selected by [a[href^="mailto:"]] *)
Definition emailLinks (d : Document) : list jsstring :=
  map (fun link => Str.trim (Str.replace_str (href link) (js "mailto:") []))
      (filter (fun a => Str.startsWith (hrefAttribute a) (js "mailto:"))
              (anchors d)).

(** [emails] after [emails.push(...emailLinks)] *)
Definition emails (pageText : jsstring) (links : list jsstring) : list jsstring :=
  orEmpty (Str.match_g pageText emailPattern) ++ links.

Definition uniqueEmails (pageText : jsstring) (links : list jsstring)
    : list jsstring :=
  JSSet.ofArray (emails pageText links).

Definition phones (pageText : jsstring) : list jsstring :=
  orEmpty (Str.match_g pageText phonePattern).

Definition cleanedPhones (pageText : jsstring) : list jsstring :=
  map cleanPhone (phones pageText).

Definition uniquePhones (pageText : jsstring) : list jsstring :=
  JSSet.ofArray (cleanedPhones pageText).

Definition addresses (pageText : jsstring) : list jsstring :=
  orEmpty (Str.match_g pageText addressPattern).

Definition uniqueAddresses (pageText : jsstring) : list jsstring :=
  JSSet.ofArray (addresses pageText).

Definition donations (pageText : jsstring) : list jsstring :=
  orEmpty (Str.match_g pageText donationPattern).

Definition uniqueDonations (pageText : jsstring) : list jsstring :=
  JSSet.ofArray (donations pageText).

(** [link => link.href] over the anchors selected by [a[href$=".pdf"]] *)
Definition pdfLinks (d : Document) : list jsstring :=
  map href (filter (fun a => Str.endsWith (hrefAttribute a) (js ".pdf"))
                   (anchors d)).

Definition uniquePdfLinks (d : Document) : list jsstring :=
  JSSet.ofArray (pdfLinks d).

(** The [extracted] object of a PDF record (lines 115 to 120) *)
Definition ofPdfText (pdfText : jsstring) : Found.t :=
  Found.mk (orEmpty (Str.match_g pdfText emailPattern))
               (orEmpty (Str.match_g pdfText phonePattern))
               (orEmpty (Str.match_g pdfText addressPattern))
               (orEmpty (Str.match_g pdfText donationPattern)).

End Entities.

(** ** The donor loop (lines 129 to 170) *)

Module Donor.
Import RegExp.

(** [for (let j = lo; j <= hi; j++)] over synchronous code that may
    throw, with the variables the body updates as loop state. *)
Fixpoint forFrom {S} (j : Z) (count : nat) (body : Z -> S -> Error + S) (s : S)
    : Error + S :=
  match count with
  | O => inr s
  | Datatypes.S n =>
      match body j s with
      | inl e => inl e
      | inr s' => forFrom (j + 1)%Z n body s'
      end
  end.

Definition forUpTo {S} (lo hi : Z) (body : Z -> S -> Error + S) (s : S)
    : Error + S :=
  forFrom lo (Z.to_nat (hi - lo + 1)) body s.

(** [lines[j]]: [undefined] ([None]) outside the array. *)
Definition item (lines : list jsstring) (j : Z) : option jsstring :=
  if (j <? 0)%Z then None else lines !! Z.to_nat j.

Definition undefinedHasNo (property : string) : Error :=
  js "Cannot read properties of undefined (reading '" ++ js property ++ js "')".

(** The variables of the outer loop. *)
Record State : Type := mkDonorState {
  donorProfiles : list DonorProfile;
  usedEmails : list jsstring;
  usedPhones : list jsstring
}.

(** Inside a name match: the two arrays of the profile being built, next
    to the variables around them. *)
Record Scan : Type := mkScan {
  emailsFound : list jsstring;
  phonesFound : list jsstring;
  outer : State
}.

(** [if (!used.has(x)) { found.push(x); used.add(x); }] *)
Definition claim (fu : list jsstring * list jsstring) (x : jsstring)
    : list jsstring * list jsstring :=
  if JSSet.has fu.2 x then fu else (fu.1 ++ [x], JSSet.add fu.2 x).

Section Loop.
Variables namePattern emailPattern phonePattern : regex.

(** [pageText.split(/\r?\n/).map(l => l.trim()).filter(Boolean)] *)
Definition linesOf (pageText : jsstring) : list jsstring :=
  filter (fun l => Str.truthy l) (map Str.trim (Str.split pageText Patterns.lineBreak)).

(** [l.match(emailPattern) || []] *)
Definition emailMatches (l : jsstring) : list jsstring :=
  orEmpty (Str.match_g l emailPattern).

(** [(l.match(phonePattern) || []).map(p => p.replace(/[-.\s]+/g, ' ').trim())] *)
Definition phoneMatches (l : jsstring) : list jsstring :=
  map Entities.cleanPhone (orEmpty (Str.match_g l phonePattern)).

(** The body of the [j] loop (lines 145 to 159). *)
Definition scanLine (lines : list jsstring) (j : Z) (s : Scan) : Error + Scan :=
  match item lines j with
  | None => inl (undefinedHasNo "match")
  | Some l =>
      let e := foldl claim (emailsFound s, usedEmails (outer s)) (emailMatches l) in
      let p := foldl claim (phonesFound s, usedPhones (outer s)) (phoneMatches l) in
      inr (mkScan e.1 p.1 (mkDonorState (donorProfiles (outer s)) e.2 p.2))
  end.

Definition windowLo (i : Z) : Z := Z.max 0 (i - 2).
Definition windowHi (lines : list jsstring) (i : Z) : Z :=
  Z.min (Z.of_nat (length lines) - 1) (i + 2).

(** The body of the [i] loop (lines 137 to 169). *)
Definition step (lines : list jsstring) (i : Z) (st : State) : Error + State :=
  match item lines i with
  | None => inl (undefinedHasNo "match")
  | Some line =>
      match Str.match_ line namePattern with
      | None => inr st
      | Some nameMatch =>
          let name := group nameMatch 1 in
          match forUpTo (windowLo i) (windowHi lines i) (scanLine lines)
                        (mkScan [] [] st) with
          | inl e => inl e
          | inr s =>
              if bool_decide (0 < length (emailsFound s))%nat
                 || bool_decide (0 < length (phonesFound s))%nat
              then match name with
                   | None => inl (undefinedHasNo "length")
                   | Some name =>
                       if bool_decide (4 < length name)%nat
                       then inr (mkDonorState
                                   (donorProfiles (outer s) ++
                                      [mkDonorProfile name (emailsFound s)
                                                      (phonesFound s)])
                                   (usedEmails (outer s)) (usedPhones (outer s)))
                       else inr (outer s)
                   end
              else inr (outer s)
          end
      end
  end.

Definition initial : State := mkDonorState [] [] [].

(** The loop variables after the iterations [i = 0 .. k - 1]. *)
Definition after (lines : list jsstring) (k : nat) : Error + State :=
  forFrom 0 k (step lines) initial.

(** The whole loop, [for (let i = 0; i < lines.length; i++)]. *)
Definition loop (lines : list jsstring) : Error + State :=
  forUpTo 0 (Z.of_nat (length lines) - 1) (step lines) initial.

Definition profiles (pageText : jsstring) : Error + list DonorProfile :=
  match loop (linesOf pageText) with
  | inl e => inl e
  | inr st => inr (donorProfiles st)
  end.

End Loop.
End Donor.

(** ** The script *)

Module Script.
Import RegExp Patterns.
Local Open Scope js_scope.

(** [sanitizeUrl] (lines 7 to 11) *)
Definition sanitizeUrl (url : jsstring) : jsstring :=
  let withoutProtocol := Str.replace url protocolPrefix [] in
  let withoutTrailingSlash := Str.replace withoutProtocol trailingSlash [] in
  Str.replace_g withoutTrailingSlash pathPunctuation (js "_").

Section Run.
Variable w : World.

(** [downloadPDF] (lines 14 to 38); [page] is the one page of the run. *)
Definition downloadPDF (url outputPath : jsstring) : M bool :=
  tryCatch
    (document <- await (goto w url) ;;
     pdfContent <- await (innerHTML document) ;;
     writeFileSync (saveError w url) outputPath (Plain pdfContent) ;;;
     ret true)
    (fun error =>
       consoleError w [js "Failed to download PDF from " ++ url ++ js ":"; error] ;;;
       ret false).

(** [extractPDFText] (lines 41 to 49); the parser prints while it
    works, also when it ends by throwing. *)
Definition extractPDFText (filePath : jsstring) : M jsstring :=
  tryCatch
    (buffer <- readFileSync filePath ;;
     logLines (pdfLog w buffer) ;;;
     await (pdf w buffer))
    (fun error =>
       consoleError w [js "Failed to extract text from PDF:"; error] ;;;
       ret []).

(** The body of the PDF loop (lines 107 to 126); [pdfData] is the array
    the loop pushes to. *)
Definition processPdf (directory : jsstring) (pdfData : list PDFRecord)
    (pdfUrl : jsstring) : M (list PDFRecord) :=
  tryCatch
    (let pdfPath := pathJoin w directory (sanitizeUrl pdfUrl ++ js ".pdf") in
     downloaded <- downloadPDF pdfUrl pdfPath ;;
     if downloaded : bool then
       pdfText <- extractPDFText pdfPath ;;
       if Str.truthy pdfText
       then ret (pdfData ++ [mkPDFRecord pdfUrl pdfText (Entities.ofPdfText pdfText)])
       else ret pdfData
     else ret pdfData)
    (fun error =>
       consoleError w [js "Failed processing PDF " ++ pdfUrl ++ js ":"; error] ;;;
       ret pdfData).

(** The [try] block of the script (lines 60 to 187). *)
Definition body : M unit :=
  let url := argv2 w in
  consoleLog (Plain (js "Navigating to URL: " ++ url)) ;;;
  document <- await (goto w url) ;;
  let pageText := if Str.truthy (innerText document) then innerText document else [] in
  if negb (Str.truthy pageText) then throw (js "Page content is empty")
  else
    let uniqueEmails := Entities.uniqueEmails pageText (Entities.emailLinks document) in
    let uniquePhones := Entities.uniquePhones pageText in
    let uniqueAddresses := Entities.uniqueAddresses pageText in
    let uniqueDonations := Entities.uniqueDonations pageText in
    let uniquePdfLinks := Entities.uniquePdfLinks document in
    let sanitizedUrl := sanitizeUrl url in
    let directory := pathJoin w (dirname w) (js "data/" ++ sanitizedUrl) in
    mkdirSync directory ;;;
    pdfData <- forOf uniquePdfLinks (processPdf directory) [] ;;
    donorProfiles <- sync (Donor.profiles namePattern emailPattern phonePattern
                                          pageText) ;;
    let data := mkResultRecord uniqueEmails uniquePhones uniqueAddresses
                               uniqueDonations uniquePdfLinks pdfData pageText
                               donorProfiles in
    let dataPath := pathJoin w directory (js "extracted_data.json") in
    writeFileSync None dataPath (Stringify data 2) ;;;
    consoleLog (Stringify data 0).

(** The whole asynchronous function: the [try] block, its [catch] and
    its [finally]. *)
Definition main : M unit :=
  tryCatchFinally body
    (fun error =>
       consoleError w [js "Error processing URL " ++ argv2 w ++ js ":"; error])
    (browserClose ;;; consoleError w [js "Browser closed."]).

(** The effects of a run. *)
Definition run : Effects := (main noEffects).1.

End Run.
End Script.

(** ** Definitions used by the statements *)

Import RegExp Patterns.

(** The longest prefix of [s] inside a class, and what follows it. *)
Fixpoint span (p : N -> bool) (s : jsstring) : jsstring * jsstring :=
  match s with
  | c :: t => if p c then let '(a, b) := span p t in (c :: a, b) else ([], s)
  | [] => ([], [])
  end.

(** The state [x] moved over [run], with [after] left to read. *)
Definition advance (x : MatchState) (run after : jsstring) : MatchState :=
  mkState (rev run ++ seen x) after (captures x).

(** [y] is a state of the same input as [x], at or beyond its position. *)
Definition later (x y : MatchState) : Prop :=
  (length (seen y) + length (rest y) = length (seen x) + length (rest x))%nat /\
  (length (rest y) <= length (rest x))%nat.

(** Every quantifier has its minimum at most its maximum. *)
Fixpoint wellFormed (r : regex) : bool :=
  match r with
  | Seq r1 r2 => wellFormed r1 && wellFormed r2
  | Quant r min max =>
      match max with Some m => bool_decide (min <= m)%nat | None => true end
      && wellFormed r
  | Group _ r => wellFormed r
  | _ => true
  end.

(** The least number of code units a match of the pattern consumes. *)
Fixpoint minLength (r : regex) : nat :=
  match r with
  | CharSet _ => 1
  | Seq r1 r2 => minLength r1 + minLength r2
  | Quant r min _ => min * minLength r
  | Group _ r => minLength r
  | _ => 0
  end.

(** What replacing every separator run by one space computes; [inRun]
    says that the previous code unit was a separator. *)
Fixpoint squeeze (inRun : bool) (s : jsstring) : jsstring :=
  match s with
  | [] => []
  | c :: t =>
      if isSeparator c then (if inRun then squeeze true t else SP :: squeeze true t)
      else c :: squeeze false t
  end.

Definition startsWithSeparator (s : jsstring) : bool :=
  match s with c :: _ => isSeparator c | [] => false end.

(** Every separator of [s] is a space and is not followed by another
    separator. *)
Fixpoint squeezed (s : jsstring) : bool :=
  match s with
  | [] => true
  | c :: t =>
      (if isSeparator c then (c =? SP) && negb (startsWithSeparator t) else true)
      && squeezed t
  end.

Definition startsWithSpace (s : jsstring) : bool :=
  match s with c :: _ => isWhiteSpace c | [] => false end.

(** The code units phone cleaning never touches: all but [[-.\s]]. *)
Definition keptByCleaning (c : N) : bool := negb (isSeparator c).

(** The elements of [l] that a set holding [s] lacks, each once, in the
    order of their first occurrence. *)
Fixpoint fresh (s l : list jsstring) : list jsstring :=
  match l with
  | [] => []
  | x :: l' => if JSSet.has s x then fresh s l' else x :: fresh (s ++ [x]) l'
  end.

(** [found] is what a scan has added to a set that started as [U] and is
    now [seen]. *)
Definition tracked (U found seen : list jsstring) : Prop :=
  seen = U ++ found /\ NoDup found /\ forall x, x ∈ found -> x ∉ U.

(** The name match of line [i], if the line exists and has one. *)
Definition nameMatchAt (namePattern : regex) (lines : list jsstring) (i : Z)
    : option MatchResult :=
  Donor.item lines i ≫= fun line => Str.match_ line namePattern.

(** Every match in the lines [lo .. hi] is in [seen]. *)
Definition covered (matches : jsstring -> list jsstring) (lines : list jsstring)
    (lo hi : Z) (seen : list jsstring) : Prop :=
  forall k l x, (lo <= k <= hi)%Z -> Donor.item lines k = Some l -> x ∈ matches l -> x ∈ seen.

(** The condition of line 162 on a profile. *)
Definition gate (p : DonorProfile) : Prop :=
  (4 < length (name p))%nat /\ (emails p <> [] \/ phones p <> []).

(** No contact is listed twice in the profiles, and every listed contact
    is in the used sets. *)
Definition exclusive (st : Donor.State) : Prop :=
  NoDup (Donor.donorProfiles st ≫= emails) /\
  (forall x, x ∈ Donor.donorProfiles st ≫= emails -> x ∈ Donor.usedEmails st) /\
  NoDup (Donor.donorProfiles st ≫= phones) /\
  (forall x, x ∈ Donor.donorProfiles st ≫= phones -> x ∈ Donor.usedPhones st) /\
  Forall gate (Donor.donorProfiles st).

(** The records a run printed to stdout. *)
Definition printed (w : World) : list ResultRecord :=
  omap (fun t => match t with Stringify d _ => Some d | Plain _ => None end)
       (stdout (Script.run w)).

(** The path of [extracted_data.json]. *)
Definition dataPath (w : World) : jsstring :=
  pathJoin w (pathJoin w (dirname w) (js "data/" ++ Script.sanitizeUrl (argv2 w)))
           (js "extracted_data.json").

(** What the two helpers obtain for a link: the text [pdf-parse] reads
    from what the page served, when the download (the page, its content
    and the write of the file) and the parse all succeed. *)
Definition fetched (w : World) (pdfUrl : jsstring) : option jsstring :=
  match goto w pdfUrl with
  | inr document =>
      match innerHTML document with
      | inr pdfContent =>
          match saveError w pdfUrl with
          | None =>
              match pdf w (Plain pdfContent) with
              | inr pdfText => Some pdfText
              | inl _ => None
              end
          | Some _ => None
          end
      | inl _ => None
      end
  | inl _ => None
  end.

(** The entry a link contributes to [pdfData], if any. *)
Definition pdfRecordOf (w : World) (pdfUrl : jsstring) : option PDFRecord :=
  match fetched w pdfUrl with
  | Some pdfText =>
      if Str.truthy pdfText
      then Some (mkPDFRecord pdfUrl pdfText (Entities.ofPdfText pdfText))
      else None
  | None => None
  end.

(** The [Donors] of a page text: what the donor loop returns. *)
Definition donorsOf (pageText : jsstring) : list DonorProfile :=
  match Donor.profiles namePattern emailPattern phonePattern pageText with
  | inr donorProfiles => donorProfiles
  | inl _ => []
  end.

(** The [data] object of a run that got [document] from its address. *)
Definition dataOf (w : World) (document : Document) : ResultRecord :=
  let pageText := innerText document in
  mkResultRecord (Entities.uniqueEmails pageText (Entities.emailLinks document))
                 (Entities.uniquePhones pageText)
                 (Entities.uniqueAddresses pageText)
                 (Entities.uniqueDonations pageText)
                 (Entities.uniquePdfLinks document)
                 (omap (pdfRecordOf w) (Entities.uniquePdfLinks document))
                 pageText
                 (donorsOf pageText).

Definition navigating (w : World) : Text :=
  Plain (js "Navigating to URL: " ++ argv2 w).
Definition browserClosedLine : Text := Plain (js "Browser closed.").
Definition emptyPageLine (w : World) : Text :=
  Plain (consoleFormat w [js "Error processing URL " ++ argv2 w ++ js ":";
                          js "Page content is empty"]).

(** A link fails when the download (the write of the file included) or
    the parse throws; it yields text when both succeed and the text is
    not empty. *)
Definition fails (w : World) (pdfUrl : jsstring) : Prop :=
  fetched w pdfUrl = None.
Definition yieldsText (w : World) (pdfUrl : jsstring) : Prop :=
  exists pdfText, fetched w pdfUrl = Some pdfText /\ pdfText <> [].

(** The page-level extractor of lines 69 to 92 applied to a text that
    comes with no anchors, as the specification describes the lists of a
    PDF record. *)
Definition pageLevel (text : jsstring) : Found.t :=
  Found.mk (Entities.uniqueEmails text []) (Entities.uniquePhones text)
           (Entities.uniqueAddresses text) (Entities.uniqueDonations text).

(** *** Concrete pages and collaborators *)

(** Lines joined by line feeds. *)
Definition joinLines (ls : list jsstring) : jsstring :=
  match ls with
  | [] => []
  | l :: ls' => l ++ foldr (fun x acc => LF :: x ++ acc) [] ls'
  end.

Definition slashJoin (a b : jsstring) : jsstring := a ++ chr "/" :: b.

Definition link (u : string) : Anchor := mkAnchor (js u) (js u).

(** A stand-in for [util.format] that knows no placeholder. *)
Definition plainFormat (first : jsstring) (more : list jsstring) : jsstring :=
  spaced (first :: more).

(** A site that serves [page] at every address and has no readable PDF;
    the parser prints nothing and every write is accepted. *)
Definition staticSite (page : Document) : World :=
  mkWorld (js "https://example.org/donors") (js "/srv/scripts") slashJoin
          (fun _ => inr page) (fun _ => inl (js "Invalid PDF structure"))
          plainFormat (fun _ => []) (fun _ => None).

Fixpoint served (pdfs : list (jsstring * (Error + jsstring))) (u : jsstring)
    : option (Error + jsstring) :=
  match pdfs with
  | [] => None
  | (k, v) :: pdfs' => if bool_decide (k = u) then Some v else served pdfs' u
  end.

(** A stand-in for [pdf-parse]: content that starts with ["%PDF "]
    parses to the text after it, anything else is rejected. *)
Definition toyPdfParse (buffer : Text) : Error + jsstring :=
  match buffer with
  | Plain s =>
      if Str.startsWith s (js "%PDF ") then inr (drop 5 s)
      else inl (js "Invalid PDF structure")
  | Stringify _ _ => inl (js "Invalid PDF structure")
  end.

(** A site that serves [page], and for each listed address either
    content or a navigation error; the parser prints nothing and every
    write is accepted. *)
Definition siteWithPdfs (page : Document)
    (pdfs : list (jsstring * (Error + jsstring))) : World :=
  mkWorld (js "https://example.org/donors") (js "/srv/scripts") slashJoin
          (fun u => match served pdfs u with
                    | Some (inr content) => inr (mkDocument [] [] (inr content))
                    | Some (inl e) => inl e
                    | None => inr page
                    end)
          toyPdfParse plainFormat (fun _ => []) (fun _ => None).

(** The end-to-end example of the specification. *)
Definition examplePage : jsstring :=
  joinLines [js "John Smith"; js "john.smith@example.com"; js "(555) 123-4567";
             js "Donation: $1,250.00"].

Definition exampleDocument : Document :=
  mkDocument examplePage [] (inl (js "Target closed")).

Definition exampleWorld : World := staticSite exampleDocument.

(** A page that links one PDF whose text repeats an email. *)
Definition reportText : jsstring :=
  js "Call 12-555-123-4567 or write to a@b.org, a@b.org".

Definition reportDocument : Document :=
  mkDocument (js "Annual report") [link "https://example.org/report.pdf"]
             (inl (js "Target closed")).

Definition reportWorld : World :=
  siteWithPdfs reportDocument
               [(js "https://example.org/report.pdf", inr (js "%PDF " ++ reportText))].

(** A page without text. *)
Definition blankDocument : Document :=
  mkDocument [] [link "https://example.org/report.pdf"] (inl (js "Target closed")).

Definition blankWorld : World := staticSite blankDocument.

(** A page with three distinct PDF links (one of them twice), the second
    of which cannot be downloaded. *)
Definition threeLinksDocument : Document :=
  mkDocument (js "Reports for Jane Doe, jane@example.org")
             [link "https://example.org/a.pdf"; link "https://example.org/b.pdf";
              link "https://example.org/a.pdf"; link "https://example.org/c.pdf";
              link "https://example.org/about"]
             (inl (js "Target closed")).

Definition threeLinks : World :=
  siteWithPdfs threeLinksDocument
    [(js "https://example.org/a.pdf", inr (js "%PDF Gift of $500 from a@b.org"));
     (js "https://example.org/b.pdf", inl (js "net::ERR_CONNECTION_REFUSED"));
     (js "https://example.org/c.pdf", inr (js "%PDF Minutes of the board"))].

(** The same three links, all served, on a file system that refuses the
    file of the second. *)
Definition refusedWrite : World :=
  mkWorld (js "https://example.org/donors") (js "/srv/scripts") slashJoin
          (goto (siteWithPdfs threeLinksDocument
                   [(js "https://example.org/a.pdf", inr (js "%PDF Gift of $500 from a@b.org"));
                    (js "https://example.org/b.pdf", inr (js "%PDF Annual report"));
                    (js "https://example.org/c.pdf", inr (js "%PDF Minutes of the board"))]))
          toyPdfParse plainFormat (fun _ => [])
          (fun u => if bool_decide (u = js "https://example.org/b.pdf")
                    then Some (js "ENAMETOOLONG: name too long")
                    else None).

(** Two names whose windows overlap. *)
Definition neighbours : jsstring :=
  joinLines [js "John Smith"; js "john@x.com 12 555 123 4567"; js "Jane Doe";
             js "jane@x.com"; js "john@x.com"].

(** A text with a repeated email and a phone number written twice. *)
Definition repeated : jsstring :=
  js "a@b.org 12 555-123-4567 c@d.org a@b.org 12.555.123.4567 34 555 123 4567".

(** A name pattern that, unlike the script's, also matches names of
    fewer than five code units: one capturing group around
    [[A-Z][a-z]* [A-Z][a-z]*], without word boundaries. *)
Definition looseNamePattern : regex :=
  Group 1 (Cat [ CharSet isUpper; Star (CharSet isLower); Char SP;
                 CharSet isUpper; Star (CharSet isLower) ]).

Definition shortName : jsstring := joinLines [js "Al B"; js "john@x.com"].

Definition shortThenLong : jsstring :=
  joinLines [js "Al B"; js "john@x.com"; js "Jane Doe"].

(** *** Patterns as languages *)

(** The state [y] is the state [x] moved over [s]. *)
Definition segment (x y : MatchState) (s : jsstring) : Prop :=
  rest x = s ++ rest y /\ seen y = rev s ++ seen x.

(** The strings a pattern can consume, read off its syntax: assertions
    and captures put no condition on them. *)
Fixpoint Lang (r : regex) (s : jsstring) : Prop :=
  match r with
  | CharSet p => exists c, s = [c] /\ p c = true
  | Seq r1 r2 => exists s1 s2, s = s1 ++ s2 /\ Lang r1 s1 /\ Lang r2 s2
  | Quant r' min max =>
      exists pieces, s = concat pieces /\ Forall (Lang r') pieces /\
        (min <= length pieces)%nat /\
        match max with Some m => (length pieces <= m)%nat | None => True end
  | Group _ r' => Lang r' s
  | _ => s = []
  end.

(** Every class of the pattern lies inside [q]. *)
Fixpoint classesWithin (q : N -> bool) (r : regex) : Prop :=
  match r with
  | CharSet p => forall c, p c = true -> q c = true
  | Seq r1 r2 => classesWithin q r1 /\ classesWithin q r2
  | Quant r' _ _ => classesWithin q r'
  | Group _ r' => classesWithin q r'
  | _ => True
  end.

(** Every match of the pattern has at least [n] code units of [q]. *)
Fixpoint guarantees (q : N -> bool) (r : regex) (n : nat) : Prop :=
  match r with
  | CharSet p => n = 0%nat \/ (n = 1%nat /\ forall c, p c = true -> q c = true)
  | Seq r1 r2 =>
      exists n1 n2, n = (n1 + n2)%nat /\ guarantees q r1 n1 /\ guarantees q r2 n2
  | Quant r' min _ => exists k, n = (min * k)%nat /\ guarantees q r' k
  | Group _ r' => guarantees q r' n
  | _ => n = 0%nat
  end.

(** [m] occurs in [s] as a run of consecutive code units. *)
Definition substring (m s : jsstring) : Prop := exists pre post, s = pre ++ m ++ post.

(** The code units of a phone match: digits, [+], parentheses and the
    separators. *)
Definition isPhoneUnit (c : N) : bool :=
  isDigit c || (c =? chr "+") || (c =? chr "(") || (c =? chr ")") || isSeparator c.

(** The code units of a cleaned phone. *)
Definition isCleanPhoneUnit (c : N) : bool :=
  isDigit c || (c =? chr "+") || (c =? chr "(") || (c =? chr ")") || (c =? SP).

(** The code units of a donation match: digits, [$], [,] and [.]. *)
Definition isAmountUnit (c : N) : bool :=
  isDigit c || (c =? chr "$") || (c =? chr ",") || (c =? chr ".").

Definition endsWithSpace (s : jsstring) : bool := startsWithSpace (rev s).

(** The inside of the group of the name pattern: two capitalised words
    with one space between them. *)
Definition twoWords : regex :=
  Cat [ CharSet isUpper; Plus (CharSet isLower); Char SP;
        CharSet isUpper; Plus (CharSet isLower) ].

(** The code units [sanitizeUrl] replaces: slash, colon and dot. *)
Definition isPathPunctuation (c : N) : bool := oneOf (js "/:.") c.

(** *** The donor loop *)

(** A profile that was built at a name match of some line [i]: its name
    is group 1 of the match and each of its contacts is a match of a
    line in the window of [i]. *)
Definition sourced (np ep pp : regex) (lines : list jsstring) (p : DonorProfile)
    : Prop :=
  exists (i : Z) (r : MatchResult),
    nameMatchAt np lines i = Some r /\ group r 1 = Some (name p) /\
    (forall x, x ∈ emails p ->
       exists k l, (Donor.windowLo i <= k <= Donor.windowHi lines i)%Z /\
                   Donor.item lines k = Some l /\ x ∈ Donor.emailMatches ep l) /\
    (forall x, x ∈ phones p ->
       exists k l, (Donor.windowLo i <= k <= Donor.windowHi lines i)%Z /\
                   Donor.item lines k = Some l /\ x ∈ Donor.phoneMatches pp l).

(** The profiles [ps] were built at the lines [indices], one each: the
    name of a profile is group 1 of the name match of its line. *)
Definition builtAt (np : regex) (lines : list jsstring) (indices : list Z)
    (ps : list DonorProfile) : Prop :=
  Forall2 (fun i p => exists r, nameMatchAt np lines i = Some r /\
                                group r 1 = Some (name p)) indices ps.

(** Later elements are larger. *)
Definition increasing (indices : list Z) : Prop :=
  forall a b i j, (a < b)%nat -> indices !! a = Some i -> indices !! b = Some j -> (i < j)%Z.

(** Every contact in the used sets is listed in a profile. *)
Definition listed (st : Donor.State) : Prop :=
  (forall x, x ∈ Donor.usedEmails st -> x ∈ Donor.donorProfiles st ≫= emails) /\
  (forall x, x ∈ Donor.usedPhones st -> x ∈ Donor.donorProfiles st ≫= phones).

(** *** The effects of the PDF loop *)

(** The lines the [catch] blocks print. *)
Definition downloadFailure (w : World) (url : jsstring) (e : Error) : Text :=
  Plain (consoleFormat w [js "Failed to download PDF from " ++ url ++ js ":"; e]).
Definition extractFailure (w : World) (e : Error) : Text :=
  Plain (consoleFormat w [js "Failed to extract text from PDF:"; e]).
Definition navigationFailure (w : World) (e : Error) : Text :=
  Plain (consoleFormat w [js "Error processing URL " ++ argv2 w ++ js ":"; e]).

(** A string without [%]: as the first argument of [console.error] it
    is printed as it is. *)
Definition percentFree (s : jsstring) : Prop := chr "%" ∉ s.

(** The directory of a run and the path a link is saved at. *)
Definition directoryOf (w : World) : jsstring :=
  pathJoin w (dirname w) (js "data/" ++ Script.sanitizeUrl (argv2 w)).
Definition pdfPath (w : World) (pdfUrl : jsstring) : jsstring :=
  pathJoin w (directoryOf w) (Script.sanitizeUrl pdfUrl ++ js ".pdf").

(** What [downloadPDF] reads for a link, when the page loads and its
    content can be read. *)
Definition downloaded (w : World) (pdfUrl : jsstring) : option jsstring :=
  match goto w pdfUrl with
  | inr document =>
      match innerHTML document with
      | inr pdfContent => Some pdfContent
      | inl _ => None
      end
  | inl _ => None
  end.

(** What [downloadPDF] saves for a link: what it reads, when the write
    is accepted. *)
Definition kept (w : World) (pdfUrl : jsstring) : option jsstring :=
  match saveError w pdfUrl with
  | None => downloaded w pdfUrl
  | Some _ => None
  end.

(** The files after the iteration of the PDF loop for a link. *)
Definition saved (w : World) (fs : gmap jsstring Text) (pdfUrl : jsstring)
    : gmap jsstring Text :=
  match kept w pdfUrl with
  | Some pdfContent => <[pdfPath w pdfUrl := Plain pdfContent]> fs
  | None => fs
  end.

(** What the iteration of the PDF loop for a link prints on stderr. *)
Definition complaints (w : World) (pdfUrl : jsstring) : list Text :=
  match goto w pdfUrl with
  | inl e => [downloadFailure w pdfUrl e]
  | inr document =>
      match innerHTML document with
      | inl e => [downloadFailure w pdfUrl e]
      | inr pdfContent =>
          match saveError w pdfUrl with
          | Some e => [downloadFailure w pdfUrl e]
          | None =>
              match pdf w (Plain pdfContent) with
              | inl e => [extractFailure w e]
              | inr _ => []
              end
          end
      end
  end.

(** What the iteration of the PDF loop for a link prints on stdout: the
    lines of the parser, when the file was saved. *)
Definition chatter (w : World) (pdfUrl : jsstring) : list Text :=
  match kept w pdfUrl with
  | Some pdfContent => map Plain (pdfLog w (Plain pdfContent))
  | None => []
  end.


(** *** More concrete pages *)

(** A site whose own address cannot be reached. *)
Definition unreachableWorld : World :=
  siteWithPdfs blankDocument
    [(js "https://example.org/donors", inl (js "net::ERR_NAME_NOT_RESOLVED"))].

(** A page with a mailto link that holds no email address. *)
Definition contactDocument : Document :=
  mkDocument (js "Contact us") [link "mailto:office"] (inl (js "Target closed")).

(** A text with a postal address. *)
Definition addressText : jsstring :=
  js "Visit 123 Main Street, Springfield, IL 62704 today".

(** A text without a phone: ten digits only. *)
Definition tenDigits : jsstring := js "Call (555) 123-4567 today".

(** A line with two names. *)
Definition twoNames : jsstring :=
  joinLines [js "John Smith and Jane Doe"; js "john@x.com jane@x.com"].

(** ** Tactics *)

(** Proves that a string that is written out holds no [%]. *)
Ltac percent_free := refine (bool_decide_unpack _ _); vm_compute; exact I.

(** Unfolds the frame of the script down to its first awaited call. *)
Ltac enter_main :=
  unfold printed, Script.run, Script.main, tryCatchFinally, tryCatch, Script.body,
    bind, consoleLog, await, sync;
  cbn [fst files dirs stdout stderr browserClosed noEffects].

(** * Facts *)

Import Donor Script.

(** ** The matcher *)

Lemma clearCaptures_nil x : clearCaptures [] x = x.
Proof.
  destruct x as [sn rs cs]. unfold clearCaptures. simpl. f_equal.
  induction cs as [|kv cs IH]; [done|].
  rewrite filter_cons_True by done. by rewrite IH.
Qed.

Lemma repeatMatcher_S fuel m gs min max x c :
  repeatMatcher (S fuel) m gs min max x c =
    if bool_decide (max = Some O) then c x
    else if bool_decide (min ≠ O) then
      m (clearCaptures gs x) (fun y =>
        if bool_decide (min = O) && bool_decide (endIndex y = endIndex x)
        then None
        else repeatMatcher fuel m gs (Nat.pred min) (decr max) y c)
    else match m (clearCaptures gs x) (fun y =>
        if bool_decide (min = O) && bool_decide (endIndex y = endIndex x)
        then None
        else repeatMatcher fuel m gs (Nat.pred min) (decr max) y c) with
         | Some z => Some z
         | None => c x
         end.
Proof. reflexivity. Qed.

Lemma matcher_CharSet p x c :
  matcher (CharSet p) x c =
    match rest x with
    | ch :: s => if p ch then c (mkState (ch :: seen x) s (captures x)) else None
    | [] => None
    end.
Proof. reflexivity. Qed.

Lemma state_eta x : mkState (seen x) (rest x) (captures x) = x.
Proof. by destruct x. Qed.

Lemma later_refl x : later x x.
Proof. by split. Qed.

Lemma later_trans x y z : later x y -> later y z -> later x z.
Proof. unfold later. lia. Qed.

Lemma repeatMatcher_fuel (m : Matcher) gs :
  (forall x c c', (forall y, later x y -> c y = c' y) -> m x c = m x c') ->
  forall fuel fuel' min max x c c',
    (min + length (rest x) < fuel)%nat -> (min + length (rest x) < fuel')%nat ->
    (forall y, later x y -> c y = c' y) ->
    repeatMatcher fuel m gs min max x c = repeatMatcher fuel' m gs min max x c'.
Proof.
  intros Hm. induction fuel as [|fuel IH]; intros fuel' min max x c c' Hf Hf' Hc; [lia|].
  destruct fuel' as [|fuel']; [lia|]. cbn [repeatMatcher].
  rewrite (Hc x (later_refl x)).
  assert (Hd : m (clearCaptures gs x)
      (fun y => if bool_decide (min = 0%nat) && bool_decide (endIndex y = endIndex x)
                then None
                else repeatMatcher fuel m gs (Nat.pred min) (decr max) y c) =
    m (clearCaptures gs x)
      (fun y => if bool_decide (min = 0%nat) && bool_decide (endIndex y = endIndex x)
                then None
                else repeatMatcher fuel' m gs (Nat.pred min) (decr max) y c')).
  { apply Hm. intros y Hy.
    assert (Hxy : later x y) by exact Hy.
    destruct (bool_decide (min = 0%nat) && bool_decide (endIndex y = endIndex x)) eqn:Hstop;
      [done|].
    assert (Hless : (Nat.pred min + length (rest y) < fuel)%nat /\
                    (Nat.pred min + length (rest y) < fuel')%nat).
    { destruct Hxy as [Hsum Hle]. apply andb_false_iff in Hstop as [Hmin|Hidx].
      - apply bool_decide_eq_false in Hmin. lia.
      - apply bool_decide_eq_false in Hidx. unfold endIndex in Hidx. lia. }
    apply IH; [lia|lia|]. intros z Hz. apply Hc. by apply (later_trans x y z). }
  by rewrite Hd.
Qed.

Lemma matcher_later r : forall x c c',
  (forall y, later x y -> c y = c' y) -> matcher r x c = matcher r x c'.
Proof.
  induction r as [|p|r1 IH1 r2 IH2|r IH min max|n r IH| | |]; intros x c c' Hc; cbn [matcher].
  - apply Hc, later_refl.
  - destruct (rest x) as [|ch s] eqn:Hx; [done|]. destruct (p ch); [|done].
    apply Hc. unfold later. cbn. rewrite Hx. cbn. lia.
  - apply IH1. intros y Hy. apply IH2. intros z Hz. apply Hc. by apply (later_trans x y z).
  - apply repeatMatcher_fuel; [exact IH|lia|lia|exact Hc].
  - apply IH. intros y Hy. apply Hc. exact Hy.
  - destruct (seen x); [|done]. apply Hc, later_refl.
  - destruct (rest x); [|done]. apply Hc, later_refl.
  - destruct (xorb _ _); [|done]. apply Hc, later_refl.
Qed.

(** The fuel a quantifier is run with is never used up: with any larger
    fuel [repeatMatcher] returns the same. *)
Lemma quantifier_fuel r min max x c fuel :
  (min + length (rest x) < fuel)%nat ->
  repeatMatcher fuel (matcher r) (groups r) min max x c = matcher (Quant r min max) x c.
Proof.
  intros Hf. cbn [matcher]. apply repeatMatcher_fuel; [apply matcher_later|lia|lia|done].
Qed.

(** What a matcher returns is what its continuation returned. *)
Lemma repeatMatcher_result (m : Matcher) gs :
  (forall x c z, m x c = Some z -> exists y, c y = Some z) ->
  forall fuel min max x c z,
    repeatMatcher fuel m gs min max x c = Some z -> exists y, c y = Some z.
Proof.
  intros Hm. induction fuel as [|fuel IH]; intros min max x c z; [done|].
  cbn [repeatMatcher]. case_bool_decide; [by exists x|].
  pose (d := fun y : MatchState =>
    if bool_decide (min = 0%nat) && bool_decide (endIndex y = endIndex x) then None
    else repeatMatcher fuel m gs (Nat.pred min) (decr max) y c).
  assert (Hd : forall z, m (clearCaptures gs x) d = Some z -> exists y, c y = Some z).
  { intros z' Hz. apply Hm in Hz as (y & Hy). unfold d in Hy.
    destruct (_ && _); [done|]. by apply IH in Hy. }
  fold d. case_bool_decide; [apply Hd|].
  destruct (m (clearCaptures gs x) d) as [z'|] eqn:Hz.
  - intros [= <-]. by apply Hd.
  - by exists x.
Qed.

Lemma matcher_result r : forall x c z,
  matcher r x c = Some z -> exists y, c y = Some z.
Proof.
  induction r as [|p|r1 IH1 r2 IH2|r IH min max|n r IH| | |]; intros x c z; cbn [matcher].
  - by exists x.
  - destruct (rest x) as [|ch s]; [done|]. destruct (p ch); [|done]. eauto.
  - intros H. apply IH1 in H as (y & H). by apply IH2 in H.
  - apply repeatMatcher_result. exact IH.
  - intros H. apply IH in H as (y & H). eauto.
  - destruct (seen x); [|done]. eauto.
  - destruct (rest x); [|done]. eauto.
  - destruct (xorb _ _); [|done]. eauto.
Qed.

Lemma repeat_class_greedy p :
  forall (s : jsstring) fuel min x,
    rest x = s -> (min + length s < fuel)%nat ->
    repeatMatcher fuel (matcher (CharSet p)) [] min None x Some =
      let '(run, after) := span p s in
      if bool_decide (min <= length run)%nat then Some (advance x run after) else None.
Proof.
  induction s as [|c t IH]; intros fuel min x Hx Hf.
  - destruct fuel as [|fuel]; [lia|].
    rewrite repeatMatcher_S, clearCaptures_nil, matcher_CharSet, Hx. cbn.
    destruct min; cbn; [|done].
    unfold advance. cbn. by rewrite <- Hx, state_eta.
  - destruct fuel as [|fuel]; [simpl in Hf; lia|].
    rewrite repeatMatcher_S, clearCaptures_nil, matcher_CharSet, Hx.
    cbn [span bool_decide decide_rel].
    rewrite bool_decide_eq_false_2 by done. cbv zeta.
    destruct (p c) eqn:Hp.
    + rewrite (bool_decide_eq_false_2 (endIndex _ = _)), andb_false_r
        by (unfold endIndex; simpl; lia).
      change (decr None) with (@None nat).
      rewrite (IH fuel (Nat.pred min) (mkState (c :: seen x) t (captures x)));
        [|done|simpl in *; lia].
      destruct (span p t) as [run after] eqn:Hs.
      unfold advance. cbn [seen rest captures rev length]. rewrite <- app_assoc. cbn [app].
      repeat case_bool_decide; try lia; try done.
    + destruct min; cbn.
      * unfold advance. cbn. by rewrite <- Hx, state_eta.
      * done.
Qed.

Lemma matchAt_class_plus p before after :
  matchAt (Plus (CharSet p)) before after =
    let '(run, after') := span p after in
    if bool_decide (1 <= length run)%nat
    then Some (mkState (rev run ++ before) after' []) else None.
Proof.
  unfold matchAt, Plus. cbn [matcher groups rest].
  rewrite (repeat_class_greedy p after) by (done || cbn; lia).
  by destruct (span p after).
Qed.

Lemma matched_advance before run after caps :
  matched before (mkState (rev run ++ before) after caps) = run.
Proof.
  unfold matched. cbn [seen]. rewrite length_app, length_rev.
  replace (length run + length before - length before)%nat with (length (rev run))
    by (rewrite length_rev; lia).
  by rewrite take_app_length, rev_involutive.
Qed.

Lemma repeatMatcher_progress (m : Matcher) gs k :
  (forall x c z, m x c = Some z ->
     exists y, c y = Some z /\ (endIndex x + k <= endIndex y)%nat) ->
  forall fuel min max x c z,
    match max with Some n => (min <= n)%nat | None => True end ->
    repeatMatcher fuel m gs min max x c = Some z ->
    exists y, c y = Some z /\ (endIndex x + min * k <= endIndex y)%nat.
Proof.
  intros Hm. induction fuel as [|fuel IH]; intros min max x c z Hwf; [done|].
  cbn [repeatMatcher]. case_bool_decide as Hmax.
  { subst max. assert (min = 0)%nat as -> by lia. intros Hz. exists x. split; [done|lia]. }
  pose (d := fun y : MatchState =>
    if bool_decide (min = 0%nat) && bool_decide (endIndex y = endIndex x) then None
    else repeatMatcher fuel m gs (Nat.pred min) (decr max) y c).
  assert (Hd : forall z, m (clearCaptures gs x) d = Some z ->
    exists y, c y = Some z /\ (endIndex x + min * k <= endIndex y)%nat).
  { intros z' Hz. apply Hm in Hz as (y & Hy & Hle). unfold d in Hy.
    destruct (_ && _); [done|]. apply IH in Hy as (y' & Hy' & Hle').
    - exists y'. split; [done|]. unfold endIndex, clearCaptures in *. cbn in *.
      destruct min; cbn in *; lia.
    - destruct max as [n|]; [|done]. cbn. destruct n; [done|]. cbn. lia. }
  fold d. case_bool_decide as Hmin; [apply Hd|].
  destruct (m (clearCaptures gs x) d) as [z'|] eqn:Hz.
  - intros [= <-]. by apply Hd.
  - intros Hc. exists x. split; [done|].
    lia.
Qed.

Lemma matcher_progress r : wellFormed r = true ->
  forall x c z, matcher r x c = Some z ->
    exists y, c y = Some z /\ (endIndex x + minLength r <= endIndex y)%nat.
Proof.
  induction r as [|p|r1 IH1 r2 IH2|r IH min max|n r IH| | |]; intros Hwf x c z;
    cbn [matcher minLength]; cbn [wellFormed] in Hwf.
  - intros H. exists x. split; [done|lia].
  - destruct (rest x) as [|ch s]; [done|]. destruct (p ch); [|done].
    intros H. eexists. split; [exact H|]. unfold endIndex. cbn. lia.
  - apply andb_true_iff in Hwf as [H1 H2]. intros H.
    apply (IH1 H1) in H as (y & H & Hle). apply (IH2 H2) in H as (y' & H & Hle').
    exists y'. split; [done|lia].
  - apply andb_true_iff in Hwf as [Hmm Hr].
    apply (repeatMatcher_progress _ _ (minLength r) (IH Hr)).
    destruct max; [by apply bool_decide_eq_true in Hmm|done].
  - intros H. apply (IH Hwf) in H as (y & H & Hle). eexists. split; [exact H|].
    unfold setCapture, endIndex in *. cbn. lia.
  - destruct (seen x); [|done]. intros H. exists x. split; [done|lia].
  - destruct (rest x); [|done]. intros H. exists x. split; [done|lia].
  - destruct (xorb _ _); [|done]. intros H. exists x. split; [done|lia].
Qed.

Lemma consumed_length x y :
  (endIndex x <= endIndex y)%nat -> length (consumed x y) = (endIndex y - endIndex x)%nat.
Proof.
  intros Hle. unfold consumed. rewrite length_rev, length_take. unfold endIndex in *. lia.
Qed.

(** A match of the script's name pattern captures at least five code
    units in its group. *)
Lemma namePattern_group before after y :
  matchAt namePattern before after = Some y ->
  exists n, lookupCapture (captures y) 1 = Some n /\ (5 <= length n)%nat.
Proof.
  assert (Hshape : exists R, namePattern = Seq WordBoundary (Seq (Group 1 R) WordBoundary)
                             /\ wellFormed R = true /\ minLength R = 5%nat)
    by (eexists; split; [reflexivity|split; reflexivity]).
  destruct Hshape as (R & -> & Hwf & Hmin). unfold matchAt. cbn [matcher].
  destruct (xorb _ _); [|done]. intros H.
  apply (matcher_progress R Hwf) in H as (y' & H & Hle). cbn beta in H.
  destruct (xorb _ _); [|done]. injection H as <-. cbn.
  eexists. rewrite bool_decide_eq_true_2 by done. split; [reflexivity|].
  rewrite consumed_length; lia.
Qed.

Lemma exec_namePattern_group after : forall before r,
  exec namePattern before after = Some r ->
  exists n, group r 1 = Some n /\ (5 <= length n)%nat.
Proof.
  induction after as [|c after IH]; intros before r; cbn [exec].
  - destruct (matchAt namePattern before []) as [y|] eqn:Hy; [|done].
    intros [= <-]. by apply namePattern_group in Hy.
  - destruct (matchAt namePattern before (c :: after)) as [y|] eqn:Hy.
    + intros [= <-]. by apply namePattern_group in Hy.
    + apply IH.
Qed.

(** ** Phone cleaning *)

Lemma substitute_separatorRun after :
  (forall before, substitute separatorRun [SP] before after O = squeeze false after) /\
  (forall before, substitute separatorRun [SP] before after
                    (length (span isSeparator after).1) = squeeze true after).
Proof.
  induction after as [|c t [IH0 IH1]].
  - split; intros before; cbn [span fst length substitute].
    + unfold separatorRun. rewrite matchAt_class_plus. done.
    + unfold separatorRun. rewrite matchAt_class_plus. done.
  - assert (H0 : forall before,
      substitute separatorRun [SP] before (c :: t) 0 = squeeze false (c :: t)).
    { intros before. cbn [substitute squeeze]. unfold separatorRun at 1.
      rewrite matchAt_class_plus. cbn [span].
      destruct (isSeparator c) eqn:Hc.
      - specialize (IH1 (c :: before)).
        destruct (span isSeparator t) as [run after'] eqn:Hs.
        rewrite bool_decide_eq_true_2 by (cbn; lia).
        rewrite matched_advance. cbn [length app]. cbn [fst] in IH1. by rewrite IH1.
      - rewrite bool_decide_eq_false_2 by (cbn; lia). by rewrite IH0. }
    split; [done|]. intros before. cbn [span squeeze].
    destruct (isSeparator c) eqn:Hc.
    + specialize (IH1 (c :: before)).
      destruct (span isSeparator t) as [run after'] eqn:Hs. cbn [fst length substitute].
      done.
    + cbn [fst length]. rewrite H0. cbn [squeeze]. by rewrite Hc.
Qed.

Lemma replace_g_separatorRun s :
  Str.replace_g s separatorRun (js " ") = squeeze false s.
Proof. apply substitute_separatorRun. Qed.

Lemma isSeparator_SP : isSeparator SP = true.
Proof. reflexivity. Qed.

Lemma whitespace_separator c : isWhiteSpace c = true -> isSeparator c = true.
Proof. unfold isSeparator. intros ->. by rewrite orb_true_r. Qed.

Lemma squeeze_true_head s :
  startsWithSeparator s = false -> squeeze true s = squeeze false s.
Proof. destruct s as [|c t]; [done|]. cbn. by intros ->. Qed.

Lemma squeeze_true_starts s : startsWithSeparator (squeeze true s) = false.
Proof.
  induction s as [|c t IH]; [done|]. cbn [squeeze].
  destruct (isSeparator c) eqn:Hc; [done|]. cbn. done.
Qed.

Lemma squeezed_squeeze b s : squeezed (squeeze b s) = true.
Proof.
  revert b. induction s as [|c t IH]; intros b; [done|]. cbn [squeeze].
  destruct (isSeparator c) eqn:Hc.
  - destruct b; [done|]. cbn [squeezed]. rewrite isSeparator_SP, squeeze_true_starts, IH.
    done.
  - cbn [squeezed]. by rewrite Hc, IH.
Qed.

Lemma squeeze_squeezed s : squeezed s = true -> squeeze false s = s.
Proof.
  induction s as [|c t IH]; [done|]. cbn [squeezed squeeze].
  destruct (isSeparator c) eqn:Hc.
  - rewrite !andb_true_iff, negb_true_iff, N.eqb_eq. intros [[-> Ht] Hq].
    rewrite squeeze_true_head by done. by rewrite IH.
  - rewrite andb_true_iff. intros [_ Hq]. by rewrite IH.
Qed.

Lemma squeezed_app a b : squeezed (a ++ b) = true -> squeezed a = true /\ squeezed b = true.
Proof.
  induction a as [|c a IH]; [done|]. cbn [app squeezed].
  rewrite !andb_true_iff. intros [Hc Hab]. destruct (IH Hab) as [Ha Hb].
  split; [|done]. split; [|done].
  destruct (isSeparator c); [|done].
  apply andb_true_iff in Hc as [-> Hn]. cbn. destruct a; [done|]. exact Hn.
Qed.

Lemma squeezed_separators s :
  squeezed s = true -> forall c, c ∈ s -> isSeparator c = true -> c = SP.
Proof.
  induction s as [|a s IH]; intros Hs c Hc Hsep; [by apply elem_of_nil in Hc|].
  cbn [squeezed] in Hs. apply andb_true_iff in Hs as [Ha Hs].
  apply elem_of_cons in Hc as [->|Hc]; [|by apply IH].
  rewrite Hsep in Ha. apply andb_true_iff in Ha as [Ha _]. by apply N.eqb_eq in Ha.
Qed.

Lemma trimStart_suffix s : exists ws, s = ws ++ Str.trimStart s /\ forallb isWhiteSpace ws = true.
Proof.
  induction s as [|c t (ws & Hws & Hall)]; [by exists []|]. cbn [Str.trimStart].
  destruct (isWhiteSpace c) eqn:Hc.
  - exists (c :: ws). cbn. rewrite Hc, Hall. by rewrite <- Hws.
  - by exists [].
Qed.

Lemma trimEnd_prefix s : exists ws, s = Str.trimEnd s ++ ws /\ forallb isWhiteSpace ws = true.
Proof.
  unfold Str.trimEnd. destruct (trimStart_suffix (rev s)) as (ws & Hws & Hall).
  exists (rev ws). split.
  - rewrite <- rev_app_distr, <- Hws. by rewrite rev_involutive.
  - rewrite forallb_forall in *. intros x Hx. apply Hall. by apply in_rev.
Qed.

Lemma trimStart_fixed s : startsWithSpace s = false -> Str.trimStart s = s.
Proof. destruct s as [|c t]; [done|]. cbn. by intros ->. Qed.

Lemma trimStart_starts s : startsWithSpace (Str.trimStart s) = false.
Proof.
  induction s as [|c t IH]; [done|]. cbn [Str.trimStart].
  destruct (isWhiteSpace c) eqn:Hc; [done|]. cbn. done.
Qed.

Lemma trimEnd_starts s : startsWithSpace s = false -> startsWithSpace (Str.trimEnd s) = false.
Proof.
  intros Hs. destruct (trimEnd_prefix s) as (ws & Hws & Hall).
  destruct (Str.trimEnd s) as [|c t] eqn:E; [done|].
  rewrite Hws in Hs. exact Hs.
Qed.

Lemma trimEnd_trimEnd s : Str.trimEnd (Str.trimEnd s) = Str.trimEnd s.
Proof.
  unfold Str.trimEnd. rewrite rev_involutive.
  by rewrite (trimStart_fixed (Str.trimStart (rev s))) by apply trimStart_starts.
Qed.

Lemma trim_trim s : Str.trim (Str.trim s) = Str.trim s.
Proof.
  unfold Str.trim.
  rewrite (trimStart_fixed (Str.trimEnd (Str.trimStart s)))
    by (apply trimEnd_starts, trimStart_starts).
  apply trimEnd_trimEnd.
Qed.

Lemma squeezed_trim s : squeezed s = true -> squeezed (Str.trim s) = true.
Proof.
  intros Hs. unfold Str.trim.
  destruct (trimStart_suffix s) as (ws & Hws & _).
  rewrite Hws in Hs. apply squeezed_app in Hs as [_ Hs].
  destruct (trimEnd_prefix (Str.trimStart s)) as (ws' & Hws' & _).
  rewrite Hws' in Hs. by apply squeezed_app in Hs as [Hs _].
Qed.

Lemma cleanPhone_squeeze s : Entities.cleanPhone s = Str.trim (squeeze false s).
Proof. unfold Entities.cleanPhone. by rewrite replace_g_separatorRun. Qed.

Lemma kept_squeeze b s :
  List.filter keptByCleaning (squeeze b s) = List.filter keptByCleaning s.
Proof.
  revert b. induction s as [|c t IH]; intros b; [done|]. cbn [squeeze List.filter].
  unfold keptByCleaning at 2. destruct (isSeparator c) eqn:Hc; cbn [negb].
  - destruct b; [apply IH|]. cbn [List.filter]. unfold keptByCleaning at 1.
    rewrite isSeparator_SP. apply IH.
  - cbn [List.filter]. unfold keptByCleaning at 1. rewrite Hc. cbn. by rewrite IH.
Qed.

Lemma kept_whitespace ws :
  forallb isWhiteSpace ws = true -> List.filter keptByCleaning ws = [].
Proof.
  induction ws as [|c t IH]; [done|]. cbn. rewrite andb_true_iff. intros [Hc Ht].
  unfold keptByCleaning at 1. rewrite (whitespace_separator c Hc). cbn. by apply IH.
Qed.

Lemma kept_trim s :
  List.filter keptByCleaning (Str.trim s) = List.filter keptByCleaning s.
Proof.
  unfold Str.trim.
  destruct (trimStart_suffix s) as (ws & Hws & Hall).
  destruct (trimEnd_prefix (Str.trimStart s)) as (ws' & Hws' & Hall').
  rewrite Hws at 2. rewrite Hws' at 2.
  rewrite !List.filter_app, (kept_whitespace ws), (kept_whitespace ws') by done.
  by rewrite app_nil_r.
Qed.

Lemma kept_cleanPhone s :
  List.filter keptByCleaning (Entities.cleanPhone s) = List.filter keptByCleaning s.
Proof. by rewrite cleanPhone_squeeze, kept_trim, kept_squeeze. Qed.

(** ** The insertion-ordered set *)

Lemma fresh_elem l : forall s x, x ∈ fresh s l <-> x ∈ l /\ x ∉ s.
Proof.
  induction l as [|a l IH]; intros s x; cbn [fresh].
  - rewrite elem_of_nil. tauto.
  - unfold JSSet.has. case_bool_decide as Ha.
    + rewrite IH, elem_of_cons. split; [tauto|].
      intros [[->|Hx] Hs]; [done|tauto].
    + rewrite !elem_of_cons, IH, elem_of_app, list_elem_of_singleton.
      destruct (decide (x = a)) as [->|Hne]; tauto.
Qed.

Lemma fresh_NoDup l : forall s, NoDup (fresh s l).
Proof.
  induction l as [|a l IH]; intros s; cbn [fresh]; [constructor|].
  unfold JSSet.has. case_bool_decide as Ha; [apply IH|].
  constructor; [|apply IH]. rewrite fresh_elem, elem_of_app, list_elem_of_singleton. tauto.
Qed.

Lemma foldl_add_fresh l : forall s, foldl JSSet.add s l = s ++ fresh s l.
Proof.
  induction l as [|a l IH]; intros s; cbn [foldl fresh]; [by rewrite app_nil_r|].
  unfold JSSet.add at 2. destruct (JSSet.has s a); [apply IH|].
  by rewrite IH, <- app_assoc.
Qed.

Lemma foldl_claim_fresh ms : forall f u,
  foldl claim (f, u) ms = (f ++ fresh u ms, u ++ fresh u ms).
Proof.
  induction ms as [|a ms IH]; intros f u; cbn [foldl fresh]; [by rewrite !app_nil_r|].
  unfold claim at 2. cbn [fst snd]. unfold JSSet.add.
  destruct (JSSet.has u a); [apply IH|]. by rewrite IH, <- !app_assoc.
Qed.

Lemma ofArray_fresh l : JSSet.ofArray l = fresh [] l.
Proof. unfold JSSet.ofArray. by rewrite foldl_add_fresh. Qed.

Lemma ofArray_NoDup l : NoDup (JSSet.ofArray l).
Proof. rewrite ofArray_fresh. apply fresh_NoDup. Qed.

Lemma ofArray_elem l x : x ∈ JSSet.ofArray l <-> x ∈ l.
Proof.
  rewrite ofArray_fresh, fresh_elem. split; [tauto|]. intros Hx. split; [done|apply not_elem_of_nil].
Qed.

Lemma ofArray_first l1 x l2 :
  x ∉ l1 ->
  exists r, JSSet.ofArray (l1 ++ x :: l2) = JSSet.ofArray l1 ++ x :: r /\
            (x ∉ JSSet.ofArray l1) /\ x ∉ r.
Proof.
  intros Hx. unfold JSSet.ofArray. rewrite foldl_app. cbn [foldl].
  fold (JSSet.ofArray l1).
  assert (Hx' : x ∉ JSSet.ofArray l1) by (by rewrite ofArray_elem).
  unfold JSSet.add, JSSet.has. rewrite bool_decide_eq_false_2 by done.
  rewrite foldl_add_fresh, <- app_assoc.
  exists (fresh (JSSet.ofArray l1 ++ [x]) l2). split; [done|]. split; [done|].
  rewrite fresh_elem, elem_of_app, list_elem_of_singleton. tauto.
Qed.

(** ** The donor loop *)

Lemma forFrom_app {St} (body : Z -> St -> Error + St) a b : forall j s,
  forFrom j (a + b) body s =
    match forFrom j a body s with
    | inl e => inl e
    | inr s' => forFrom (j + Z.of_nat a) b body s'
    end.
Proof.
  induction a as [|a IH]; intros j s.
  - cbn. by rewrite Z.add_0_r.
  - cbn [Nat.add forFrom]. destruct (body j s) as [e|s1]; [done|].
    rewrite IH. replace (j + 1 + Z.of_nat a)%Z with (j + Z.of_nat (S a))%Z by lia. done.
Qed.

(** A loop rule: an invariant carried by every iteration that returns
    holds when the loop returns. *)
Lemma forFrom_rule {St} (I : Z -> St -> Prop) (body : Z -> St -> Error + St) count :
  forall j s s',
    I j s ->
    (forall k t t', (j <= k < j + Z.of_nat count)%Z -> I k t -> body k t = inr t' ->
                    I (k + 1)%Z t') ->
    forFrom j count body s = inr s' -> I (j + Z.of_nat count)%Z s'.
Proof.
  induction count as [|n IH]; intros j s s' Hs Hstep Hrun.
  - cbn in Hrun. injection Hrun as <-. by rewrite Z.add_0_r.
  - cbn [forFrom] in Hrun. destruct (body j s) as [e|s1] eqn:Hb; [done|].
    replace (j + Z.of_nat (S n))%Z with (j + 1 + Z.of_nat n)%Z by lia.
    apply (IH (j + 1)%Z s1); [|intros k t t' Hk; apply Hstep; lia|done].
    apply (Hstep j s); [lia|done..].
Qed.

(** Its total form: iterations that return under the invariant make the
    loop return. *)
Lemma forFrom_total {St} (I : Z -> St -> Prop) (body : Z -> St -> Error + St) count :
  forall j s,
    I j s ->
    (forall k t, (j <= k < j + Z.of_nat count)%Z -> I k t ->
                 exists t', body k t = inr t' /\ I (k + 1)%Z t') ->
    exists s', forFrom j count body s = inr s' /\ I (j + Z.of_nat count)%Z s'.
Proof.
  induction count as [|n IH]; intros j s Hs Hstep.
  - exists s. by rewrite Z.add_0_r.
  - destruct (Hstep j s) as (s1 & Hb & Hs1); [lia|done|].
    destruct (IH (j + 1)%Z s1) as (s' & Hrun & Hs'); [done|intros k t Hk; apply Hstep; lia|].
    exists s'. cbn [forFrom]. rewrite Hb.
    replace (j + Z.of_nat (S n))%Z with (j + 1 + Z.of_nat n)%Z by lia. done.
Qed.

Lemma tracked_start U : tracked U [] U.
Proof.
  split; [by rewrite app_nil_r|]. split; [constructor|].
  intros x Hx. by apply elem_of_nil in Hx.
Qed.

Lemma tracked_claim U f s ms :
  tracked U f s ->
  tracked U (foldl claim (f, s) ms).1 (foldl claim (f, s) ms).2 /\
  (forall x, x ∈ ms -> x ∈ (foldl claim (f, s) ms).2) /\
  (forall x, x ∈ s -> x ∈ (foldl claim (f, s) ms).2).
Proof.
  intros (-> & Hnd & Hfresh). rewrite foldl_claim_fresh. cbn [fst snd].
  split; [|split].
  - split; [by rewrite app_assoc|]. split.
    + apply NoDup_app. split; [done|]. split; [|apply fresh_NoDup].
      intros x Hx Hx'. apply fresh_elem in Hx' as [_ Hx']. apply Hx'.
      rewrite elem_of_app. by right.
    + intros x. rewrite elem_of_app. intros [Hx|Hx]; [by apply Hfresh|].
      apply fresh_elem in Hx as [_ Hx]. rewrite elem_of_app in Hx. tauto.
  - intros x Hx. rewrite elem_of_app, fresh_elem.
    destruct (decide (x ∈ U ++ f)); tauto.
  - intros x Hx. rewrite elem_of_app. by left.
Qed.

Lemma tracked_grow U f s : tracked U f s ->
  forall (old : list jsstring),
    NoDup old -> (forall x, x ∈ old -> x ∈ U) ->
    NoDup (old ++ f) /\ (forall x, x ∈ old ++ f -> x ∈ s) /\ (forall x, x ∈ old -> x ∈ s).
Proof.
  intros (-> & Hnd & Hfresh) old Hold Hsub. split; [|split].
  - apply NoDup_app. split; [done|]. split; [|done].
    intros x Hx Hx'. by apply (Hfresh x Hx'), Hsub.
  - intros x. rewrite !elem_of_app. intros [Hx|Hx]; [left; by apply Hsub|by right].
  - intros x Hx. rewrite elem_of_app. left. by apply Hsub.
Qed.

Lemma NoDup_bind_apart {A B} (f : A -> list B) (l : list A) :
  NoDup (l ≫= f) ->
  forall i j a b x, i <> j -> l !! i = Some a -> l !! j = Some b -> x ∈ f a -> x ∉ f b.
Proof.
  induction l as [|c l IH]; intros Hnd i j a b x Hij Ha Hb Hx; [done|].
  rewrite bind_cons in Hnd. apply NoDup_app in Hnd as (Hc & Hdis & Hl).
  destruct i as [|i], j as [|j]; cbn in Ha, Hb.
  - done.
  - injection Ha as <-. intros Hx'. apply (Hdis x Hx).
    apply list_elem_of_bind. exists b. split; [done|]. by apply list_elem_of_lookup_2 in Hb.
  - injection Hb as <-. intros Hx'. apply (Hdis x Hx').
    apply list_elem_of_bind. exists a. split; [done|]. by apply list_elem_of_lookup_2 in Ha.
  - apply (IH Hl i j a b x); [lia|done..].
Qed.

Lemma item_in_range (lines : list jsstring) k :
  (0 <= k < Z.of_nat (length lines))%Z -> exists l, item lines k = Some l.
Proof.
  intros Hk. unfold item. destruct (Z.ltb_spec k 0); [lia|].
  apply lookup_lt_is_Some_2. lia.
Qed.

Section DonorLoop.
Variables np ep pp : regex.

Lemma window_spec lines lo hi st s' :
  forUpTo lo hi (scanLine ep pp lines) (mkScan [] [] st) = inr s' ->
  tracked (usedEmails st) (emailsFound s') (usedEmails (outer s')) /\
  tracked (usedPhones st) (phonesFound s') (usedPhones (outer s')) /\
  covered (emailMatches ep) lines lo hi (usedEmails (outer s')) /\
  covered (phoneMatches pp) lines lo hi (usedPhones (outer s')) /\
  donorProfiles (outer s') = donorProfiles st.
Proof.
  intros Hrun. unfold forUpTo in Hrun.
  pose (I := fun (j : Z) (s : Scan) =>
    tracked (usedEmails st) (emailsFound s) (usedEmails (outer s)) /\
    tracked (usedPhones st) (phonesFound s) (usedPhones (outer s)) /\
    covered (emailMatches ep) lines lo (j - 1) (usedEmails (outer s)) /\
    covered (phoneMatches pp) lines lo (j - 1) (usedPhones (outer s)) /\
    donorProfiles (outer s) = donorProfiles st).
  assert (HI : I (lo + Z.of_nat (Z.to_nat (hi - lo + 1)))%Z s').
  { assert (H0 : I lo (mkScan [] [] st)).
    { split; [apply tracked_start|]. split; [apply tracked_start|].
      split; [|split; [|done]]; intros k l x Hk; lia. }
    apply (forFrom_rule I _ _ _ _ _ H0) in Hrun; [done|].
    clear Hrun s' H0. intros k t t' Hk (He & Hp & Hce & Hcp & Hd) Hbody.
    unfold scanLine in Hbody. destruct (item lines k) as [l|] eqn:Hl; [|done].
    injection Hbody as <-.
    cbn [emailsFound phonesFound outer usedEmails usedPhones donorProfiles].
    destruct (tracked_claim _ _ _ (emailMatches ep l) He) as (He' & Hnew & Hold).
    destruct (tracked_claim _ _ _ (phoneMatches pp l) Hp) as (Hp' & Hnewp & Holdp).
    split; [done|]. split; [done|]. split; [|split; [|done]].
    - intros k' l' x Hk' Hl' Hx. destruct (decide (k' = k)) as [->|Hne].
      + rewrite Hl in Hl'. injection Hl' as <-. by apply Hnew.
      + apply Hold. apply (Hce k' l' x); [lia|done..].
    - intros k' l' x Hk' Hl' Hx. destruct (decide (k' = k)) as [->|Hne].
      + rewrite Hl in Hl'. injection Hl' as <-. by apply Hnewp.
      + apply Holdp. apply (Hcp k' l' x); [lia|done..]. }
  destruct HI as (He & Hp & Hce & Hcp & Hd). split; [done|]. split; [done|].
  split; [|split; [|done]]; intros k l x Hk; [apply Hce|apply Hcp]; lia.
Qed.

Lemma step_spec lines i st st' :
  step np ep pp lines i st = inr st' ->
  exists fe fp,
    tracked (usedEmails st) fe (usedEmails st') /\
    tracked (usedPhones st) fp (usedPhones st') /\
    (donorProfiles st' = donorProfiles st \/
     exists n, donorProfiles st' = donorProfiles st ++ [mkDonorProfile n fe fp] /\
               (4 < length n)%nat /\ (fe <> [] \/ fp <> [])) /\
    (forall r, nameMatchAt np lines i = Some r ->
       covered (emailMatches ep) lines (windowLo i) (windowHi lines i) (usedEmails st') /\
       covered (phoneMatches pp) lines (windowLo i) (windowHi lines i) (usedPhones st') /\
       (forall n, group r 1 = Some n -> (length n <= 4)%nat ->
                  donorProfiles st' = donorProfiles st)).
Proof.
  unfold step, nameMatchAt. destruct (item lines i) as [line|]; [|done]. cbn [mbind option_bind].
  destruct (Str.match_ line np) as [r|].
  2:{ intros [= <-]. exists [], []. split; [apply tracked_start|]. split; [apply tracked_start|].
      split; [by left|]. done. }
  destruct (forUpTo _ _ _ _) as [e|s] eqn:Hw; [done|].
  apply window_spec in Hw as (He & Hp & Hce & Hcp & Hd). intros Hst.
  exists (emailsFound s), (phonesFound s).
  assert (Hcase :
    st' = outer s \/
    (exists n, group r 1 = Some n /\ (4 < length n)%nat /\
       (emailsFound s <> [] \/ phonesFound s <> []) /\
       st' = mkDonorState
               (donorProfiles (outer s) ++ [mkDonorProfile n (emailsFound s) (phonesFound s)])
               (usedEmails (outer s)) (usedPhones (outer s)))).
  { destruct (bool_decide (0 < length (emailsFound s))%nat
              || bool_decide (0 < length (phonesFound s))%nat) eqn:Hgate.
    - destruct (group r 1) as [n|]; [|done]. case_bool_decide as Hlen.
      + right. exists n. injection Hst as <-. split; [done|]. split; [done|]. split; [|done].
        apply orb_true_iff in Hgate as [H|H]; apply bool_decide_eq_true in H;
          [left|right]; intros E; rewrite E in H; cbn in H; lia.
      + left. by injection Hst as <-.
    - left. by injection Hst as <-. }
  destruct Hcase as [->|(n & Hn & Hlen & Hne & ->)]; cbn [usedEmails usedPhones donorProfiles].
  - split; [done|]. split; [done|]. split; [by left|].
    intros r' [= <-]. split; [done|]. split; [done|]. done.
  - rewrite Hd. split; [done|]. split; [done|]. split; [right; by exists n|].
    intros r' [= <-]. split; [done|]. split; [done|].
    intros n' Hn' Hshort. rewrite Hn in Hn'. injection Hn' as <-. lia.
Qed.

Lemma step_exclusive lines i st st' :
  exclusive st -> step np ep pp lines i st = inr st' -> exclusive st'.
Proof.
  intros (He & Hse & Hp & Hsp & Hg) Hstep.
  apply step_spec in Hstep as (fe & fp & Hte & Htp & Hprof & _).
  destruct (tracked_grow _ _ _ Hte _ He Hse) as (He1 & He2 & He3).
  destruct (tracked_grow _ _ _ Htp _ Hp Hsp) as (Hp1 & Hp2 & Hp3).
  unfold exclusive. destruct Hprof as [->|(n & -> & Hlen & Hne)].
  - by repeat split.
  - rewrite !bind_app, !bind_singleton. cbn [emails phones].
    repeat split; try done. apply Forall_app. split; [done|].
    apply Forall_singleton. by split.
Qed.

Lemma exclusive_initial : exclusive initial.
Proof.
  unfold exclusive, initial. cbn. repeat split; try constructor.
  all: intros x Hx; by apply elem_of_nil in Hx.
Qed.

Lemma run_exclusive lines count j st st' :
  exclusive st -> forFrom j count (step np ep pp lines) st = inr st' -> exclusive st'.
Proof.
  intros Hst Hrun.
  apply (forFrom_rule (fun _ => exclusive) _ _ _ _ _ Hst) in Hrun; [done|].
  intros k t t' _. apply step_exclusive.
Qed.

(** What the iterations from a state on can still emit: profiles whose
    contacts were not in the used sets of that state. *)
Lemma run_fresh lines count : forall j st st',
  forFrom j count (step np ep pp lines) st = inr st' ->
  exists later,
    donorProfiles st' = donorProfiles st ++ later /\
    (forall p x, p ∈ later ->
       (x ∈ emails p -> x ∉ usedEmails st) /\ (x ∈ phones p -> x ∉ usedPhones st)) /\
    (forall x, x ∈ usedEmails st -> x ∈ usedEmails st') /\
    (forall x, x ∈ usedPhones st -> x ∈ usedPhones st').
Proof.
  induction count as [|n IH]; intros j st st' Hrun.
  - injection Hrun as <-. exists []. rewrite app_nil_r. split; [done|].
    split; [|done]. intros p x Hp. by apply elem_of_nil in Hp.
  - cbn [forFrom] in Hrun. destruct (step np ep pp lines j st) as [e|s1] eqn:Hstep; [done|].
    apply step_spec in Hstep as (fe & fp & (Hue & _ & Hfe) & (Hup & _ & Hfp) & Hprof & _).
    destruct (IH _ _ _ Hrun) as (later & Hlater & Hfresh & Hme & Hmp).
    assert (Hsube : forall x, x ∈ usedEmails st -> x ∈ usedEmails s1).
    { intros x Hx. rewrite Hue, elem_of_app. by left. }
    assert (Hsubp : forall x, x ∈ usedPhones st -> x ∈ usedPhones s1).
    { intros x Hx. rewrite Hup, elem_of_app. by left. }
    assert (Hlate : forall p x, p ∈ later ->
       (x ∈ emails p -> x ∉ usedEmails st) /\ (x ∈ phones p -> x ∉ usedPhones st)).
    { intros p x Hp. destruct (Hfresh p x Hp) as [H1 H2].
      split; intros Hx Hu; [apply (H1 Hx)|apply (H2 Hx)]; auto. }
    destruct Hprof as [Hsame|(name & Hnew & _)].
    + exists later. rewrite Hlater, Hsame. split; [done|]. split; [done|]. split; auto.
    + exists (mkDonorProfile name fe fp :: later). rewrite Hlater, Hnew, <- app_assoc.
      split; [done|]. split; [|split; auto].
      intros p x. rewrite elem_of_cons. intros [->|Hp]; [|by apply Hlate].
      cbn [emails phones]. split; [apply Hfe|apply Hfp].
Qed.

End DonorLoop.

Lemma loop_after np ep pp lines :
  loop np ep pp lines = after np ep pp lines (length lines).
Proof.
  unfold loop, after, forUpTo. f_equal. lia.
Qed.

Lemma after_step np ep pp lines (i : nat) before st :
  Donor.after np ep pp lines i = inr before ->
  Donor.step np ep pp lines (Z.of_nat i) before = inr st ->
  Donor.after np ep pp lines (S i) = inr st.
Proof.
  unfold Donor.after. intros Hb Hs. replace (S i) with (i + 1)%nat by lia.
  rewrite forFrom_app, Hb. cbn [Donor.forFrom]. rewrite Z.add_0_l, Hs. done.
Qed.

Lemma after_split np ep pp lines (i : nat) st :
  Donor.after np ep pp lines (S i) = inr st ->
  exists before, Donor.after np ep pp lines i = inr before /\
                 Donor.step np ep pp lines (Z.of_nat i) before = inr st.
Proof.
  unfold Donor.after. replace (S i) with (i + 1)%nat by lia. rewrite forFrom_app.
  destruct (Donor.forFrom 0 i _ _) as [e|before]; [done|].
  cbn [Donor.forFrom]. rewrite Z.add_0_l.
  destruct (Donor.step _ _ _ _ _ _) as [e|st'] eqn:Hs; [done|].
  intros [= <-]. by exists before.
Qed.

Lemma loop_split np ep pp lines (i : nat) final :
  (i < length lines)%nat ->
  Donor.loop np ep pp lines = inr final ->
  exists st, Donor.after np ep pp lines (S i) = inr st /\
             Donor.forFrom (Z.of_nat (S i)) (length lines - S i)
                           (Donor.step np ep pp lines) st = inr final.
Proof.
  intros Hi. rewrite loop_after. unfold Donor.after.
  replace (length lines) with (S i + (length lines - S i))%nat at 1 by lia.
  rewrite forFrom_app. destruct (Donor.forFrom 0 (S i) _ _) as [e|st]; [done|].
  rewrite Z.add_0_l. intros H. by exists st.
Qed.

Lemma profiles_exclusive np ep pp pageText ps :
  Donor.profiles np ep pp pageText = inr ps ->
  NoDup (ps ≫= emails) /\ NoDup (ps ≫= phones) /\ Forall gate ps.
Proof.
  unfold Donor.profiles. rewrite loop_after. unfold Donor.after.
  destruct (Donor.forFrom _ _ _ _) as [e|st] eqn:Hrun; [done|]. intros [= <-].
  apply run_exclusive in Hrun as (He & _ & Hp & _ & Hg); [done|apply exclusive_initial].
Qed.

Lemma window_total ep pp lines i s :
  exists s', forUpTo (windowLo i) (windowHi lines i) (scanLine ep pp lines) s = inr s'.
Proof.
  unfold forUpTo.
  destruct (forFrom_total (fun _ _ => True) (scanLine ep pp lines)
              (Z.to_nat (windowHi lines i - windowLo i + 1)) (windowLo i) s I)
    as (s' & Hs' & _); [|by exists s'].
  intros k t Hk _. unfold scanLine.
  destruct (item_in_range lines k) as (l & ->); [|eauto].
  unfold windowLo, windowHi in *. lia.
Qed.

Lemma step_total lines i st :
  (0 <= i < Z.of_nat (length lines))%Z ->
  exists st', step namePattern emailPattern phonePattern lines i st = inr st'.
Proof.
  intros Hi. unfold step. destruct (item_in_range lines i Hi) as (line & ->).
  destruct (Str.match_ line namePattern) as [r|] eqn:Hr; [|eauto].
  destruct (window_total emailPattern phonePattern lines i
              (mkScan [] [] st)) as (s & ->).
  apply exec_namePattern_group in Hr as (n & -> & _).
  destruct (_ || _); [|eauto]. case_bool_decide; eauto.
Qed.

Lemma loop_total lines :
  exists st, loop namePattern emailPattern phonePattern lines = inr st.
Proof.
  rewrite loop_after. unfold after.
  destruct (forFrom_total (fun _ _ => True)
              (step namePattern emailPattern phonePattern lines) (length lines) 0%Z
              initial I) as (st & Hst & _); [|by exists st].
  intros k t Hk _. destruct (step_total lines k t) as (t' & ->); [lia|eauto].
Qed.

Lemma profiles_total pageText :
  Donor.profiles namePattern emailPattern phonePattern pageText = inr (donorsOf pageText).
Proof.
  unfold donorsOf, Donor.profiles.
  by destruct (loop_total (Donor.linesOf pageText)) as (st & ->).
Qed.

(** With the script's own pattern the length test of line 162 never
    rejects a matched name. *)
Lemma script_names_pass_gate lines i r :
  nameMatchAt namePattern lines i = Some r ->
  exists n, group r 1 = Some n /\ (4 < length n)%nat.
Proof.
  unfold nameMatchAt. destruct (item lines i) as [line|]; [|done]. cbn.
  intros Hr. apply exec_namePattern_group in Hr as (n & Hn & Hlen).
  exists n. split; [done|lia].
Qed.

(** ** The run *)

Lemma truthy_nonempty (s : jsstring) : s <> [] -> Str.truthy s = true.
Proof. by destruct s. Qed.

Lemma pdfRecordOf_Some w pdfUrl rec :
  pdfRecordOf w pdfUrl = Some rec ->
  url rec = pdfUrl /\ fetched w pdfUrl = Some (text rec) /\ text rec <> [] /\
  extracted rec = Entities.ofPdfText (text rec).
Proof.
  unfold pdfRecordOf. destruct (fetched w pdfUrl) as [t|]; [|done].
  destruct t as [|c t]; [done|]. cbn. intros [= <-]. done.
Qed.

Lemma pdfRecordOf_fails w pdfUrl : fails w pdfUrl -> pdfRecordOf w pdfUrl = None.
Proof. unfold fails, pdfRecordOf. by intros ->. Qed.

Lemma pdfRecordOf_yields w pdfUrl :
  yieldsText w pdfUrl -> exists rec, pdfRecordOf w pdfUrl = Some rec.
Proof.
  intros (t & Ht & Hne). unfold pdfRecordOf. rewrite Ht.
  destruct t; [done|]. cbn. eauto.
Qed.

Lemma pdfData_length w (links : list jsstring) :
  (forall pdfUrl, pdfUrl ∈ links -> fails w pdfUrl \/ yieldsText w pdfUrl) ->
  (length (omap (pdfRecordOf w) links)
   + length (filter (fails w) links) = length links)%nat.
Proof.
  unfold fails. induction links as [|pdfUrl links IH]; intros Hall; [done|].
  assert (IH' := IH (fun u Hu => Hall u (list_elem_of_further _ _ _ Hu))).
  cbn [omap list_omap length].
  destruct (Hall pdfUrl (list_elem_of_here _ _)) as [Hf|Hy].
  - rewrite (pdfRecordOf_fails w pdfUrl Hf). rewrite filter_cons_True by done.
    cbn [length]. lia.
  - destruct (pdfRecordOf_yields w pdfUrl Hy) as (rec & ->).
    destruct Hy as (t & Ht & _). rewrite filter_cons_False by congruence.
    cbn [length]. lia.
Qed.

Lemma percentFree_app (a b : jsstring) :
  percentFree (a ++ b) <-> percentFree a /\ percentFree b.
Proof. unfold percentFree. rewrite elem_of_app. tauto. Qed.

Lemma atPercent_app fixed rest :
  percentFree fixed ->
  atPercent (fixed ++ rest) = (fixed ++ (atPercent rest).1, (atPercent rest).2).
Proof.
  unfold percentFree. induction fixed as [|c fixed IH]; intros Hfree.
  - cbn [app]. by destruct (atPercent rest).
  - rewrite not_elem_of_cons in Hfree. destruct Hfree as [Hc Hfree].
    cbn [app atPercent]. destruct (N.eqb_spec c (chr "%")) as [->|_]; [done|].
    by rewrite (IH Hfree).
Qed.

Lemma atPercent_free s : percentFree s -> atPercent s = (s, []).
Proof.
  intros Hfree. rewrite <- (app_nil_r s) at 1. rewrite (atPercent_app s [] Hfree).
  cbn. by rewrite app_nil_r.
Qed.

(** Without a [%] in the first argument, [console.error] joins its two
    arguments with a space. *)
Lemma consoleFormat_free w a b :
  percentFree a -> consoleFormat w [a; b] = a ++ SP :: b.
Proof. intros Hfree. unfold consoleFormat. by rewrite (atPercent_free a Hfree). Qed.

(** What stands before the first [%] of the first argument is printed
    as it is. *)
Lemma consoleFormat_prefix w fixed rest b :
  percentFree fixed -> exists tail, consoleFormat w [fixed ++ rest; b] = fixed ++ tail.
Proof.
  intros Hfree. unfold consoleFormat. rewrite (atPercent_app fixed rest Hfree).
  destruct (atPercent rest) as [before placeholders]. cbn [fst snd].
  destruct placeholders as [|c placeholders].
  - cbn [spaced]. rewrite <- app_assoc. eauto.
  - rewrite <- app_assoc. eauto.
Qed.

Lemma startsWith_app (fixed tail : jsstring) : Str.startsWith (fixed ++ tail) fixed = true.
Proof. unfold Str.startsWith. by rewrite take_app_length, bool_decide_eq_true_2. Qed.

Lemma printed_lines (lines : list jsstring) :
  omap (fun t => match t with Stringify d _ => Some d | Plain _ => None end)
       (map Plain lines) = [].
Proof. by induction lines. Qed.

Lemma chatter_plain w pdfUrl : exists lines, chatter w pdfUrl = map Plain lines.
Proof. unfold chatter. destruct (kept w pdfUrl); [eauto|by exists []]. Qed.

Lemma chatter_printed w (links : list jsstring) :
  omap (fun t => match t with Stringify d _ => Some d | Plain _ => None end)
       (links ≫= chatter w) = [].
Proof.
  induction links as [|pdfUrl links IH]; [done|].
  rewrite bind_cons, omap_app, IH, app_nil_r.
  destruct (chatter_plain w pdfUrl) as (lines & ->). apply printed_lines.
Qed.

Section Run.
Variable w : World.

(** One iteration of the PDF loop: it pushes the entry of its link, if
    the link has one, saves what it downloaded and prints the lines of
    the parser and of the helpers that failed. *)
Lemma processPdf_effects pdfData pdfUrl s :
  processPdf w (directoryOf w) pdfData pdfUrl s =
    (mkEffects (saved w (files s) pdfUrl) (dirs s) (stdout s ++ chatter w pdfUrl)
               (stderr s ++ complaints w pdfUrl) (browserClosed s),
     inr (pdfData ++ option_list (pdfRecordOf w pdfUrl))).
Proof.
  unfold processPdf, pdfRecordOf, fetched, saved, chatter, kept, downloaded, complaints,
    downloadFailure, extractFailure, tryCatch, bind, downloadPDF, extractPDFText, tryCatch,
    bind, await, consoleError, ret.
  destruct s as [fs ds out err closed]. cbn [files dirs stdout stderr browserClosed].
  destruct (goto w pdfUrl) as [e|document].
  { destruct (saveError w pdfUrl); cbn; by rewrite !app_nil_r. }
  destruct (innerHTML document) as [e|pdfContent].
  { destruct (saveError w pdfUrl); cbn; by rewrite !app_nil_r. }
  unfold writeFileSync, readFileSync, logLines.
  destruct (saveError w pdfUrl) as [e|]; [cbn; by rewrite !app_nil_r|].
  cbn [files dirs stdout stderr browserClosed].
  fold (pdfPath w pdfUrl). rewrite lookup_insert_eq.
  cbn [files dirs stdout stderr browserClosed].
  destruct (pdf w (Plain pdfContent)) as [e|pdfText]; [cbn; by rewrite !app_nil_r|].
  destruct (Str.truthy pdfText); cbn; by rewrite !app_nil_r.
Qed.

Lemma forOf_processPdf_effects links : forall pdfData s,
  forOf links (processPdf w (directoryOf w)) pdfData s =
    (mkEffects (foldl (saved w) (files s) links) (dirs s)
               (stdout s ++ (links ≫= chatter w))
               (stderr s ++ (links ≫= complaints w)) (browserClosed s),
     inr (pdfData ++ omap (pdfRecordOf w) links)).
Proof.
  induction links as [|pdfUrl links IH]; intros pdfData s.
  - cbn. rewrite !app_nil_r. by destruct s.
  - cbn [forOf omap list_omap foldl]. unfold bind at 1.
    rewrite processPdf_effects, IH. cbn [files dirs stdout stderr browserClosed].
    rewrite !bind_cons, <- !app_assoc. f_equal. f_equal. f_equal.
    by destruct (pdfRecordOf w pdfUrl).
Qed.

(** A page without text: the run as a whole. *)
Lemma main_empty document :
  goto w (argv2 w) = inr document -> innerText document = [] ->
  main w noEffects =
    (mkEffects ∅ [] [navigating w] [emptyPageLine w; browserClosedLine] true, inr tt).
Proof.
  intros Hgoto Htext. enter_main. rewrite Hgoto, Htext. reflexivity.
Qed.

(** The effects of a run whose page loads with text. *)
Lemma main_effects document :
  goto w (argv2 w) = inr document -> innerText document <> [] ->
  main w noEffects =
    (mkEffects (<[dataPath w := Stringify (dataOf w document) 2]>
                  (foldl (saved w) ∅ (Entities.uniquePdfLinks document)))
               [directoryOf w]
               (navigating w :: (Entities.uniquePdfLinks document ≫= chatter w)
                  ++ [Stringify (dataOf w document) 0])
               ((Entities.uniquePdfLinks document ≫= complaints w) ++ [browserClosedLine])
               true,
     inr tt).
Proof.
  intros Hgoto Htext. enter_main.
  rewrite Hgoto, (truthy_nonempty _ Htext). cbn [negb].
  rewrite (truthy_nonempty _ Htext). cbn [negb]. unfold mkdirSync.
  cbn [files dirs stdout stderr browserClosed].
  fold (directoryOf w). rewrite forOf_processPdf_effects.
  rewrite profiles_total. unfold writeFileSync, browserClose, consoleError.
  cbn [files dirs stdout stderr browserClosed app]. reflexivity.
Qed.

(** A page with text: the run prints and writes [dataOf w document]. *)
Lemma main_ok document :
  goto w (argv2 w) = inr document -> innerText document <> [] ->
  exists s',
    main w noEffects = (s', inr tt) /\
    omap (fun t => match t with Stringify d _ => Some d | Plain _ => None end) (stdout s')
      = [dataOf w document] /\
    files s' !! dataPath w = Some (Stringify (dataOf w document) 2) /\
    browserClosed s' = true.
Proof.
  intros Hgoto Htext. rewrite (main_effects document Hgoto Htext).
  eexists. split; [reflexivity|]. cbn [files stdout browserClosed].
  split; [|split; [apply lookup_insert_eq|done]].
  unfold navigating. cbn [omap list_omap]. by rewrite omap_app, chatter_printed.
Qed.

Lemma main_navigation_effects e :
  goto w (argv2 w) = inl e ->
  main w noEffects =
    (mkEffects ∅ [] [navigating w] [navigationFailure w e; browserClosedLine] true, inr tt).
Proof. intros Hgoto. enter_main. rewrite Hgoto. reflexivity. Qed.

End Run.

Lemma main_navigation_fails w e :
  goto w (argv2 w) = inl e -> printed w = [].
Proof.
  intros Hgoto. unfold printed, Script.run.
  by rewrite (main_navigation_effects w e Hgoto).
Qed.

Lemma printed_ok w document :
  goto w (argv2 w) = inr document -> innerText document <> [] ->
  printed w = [dataOf w document] /\
  files (Script.run w) !! dataPath w = Some (Stringify (dataOf w document) 2) /\
  browserClosed (Script.run w) = true.
Proof.
  intros Hgoto Htext.
  destruct (main_ok w document Hgoto Htext) as (s' & Hmain & Hout & Hfile & Hclosed).
  unfold printed, Script.run. rewrite Hmain. cbn [fst]. rewrite Hout. done.
Qed.

(** A record is printed only by a run whose page loaded with text. *)
Lemma printed_cases w d :
  d ∈ printed w ->
  exists document, goto w (argv2 w) = inr document /\ innerText document <> [] /\
                   d = dataOf w document.
Proof.
  intros Hd. destruct (goto w (argv2 w)) as [e|document] eqn:Hgoto.
  - rewrite (main_navigation_fails w e Hgoto) in Hd. by apply elem_of_nil in Hd.
  - exists document. split; [done|].
    destruct (decide (innerText document = [])) as [Hempty|Hne].
    + unfold printed, Script.run in Hd.
      rewrite (main_empty w document Hgoto Hempty) in Hd. by apply elem_of_nil in Hd.
    + split; [done|]. destruct (printed_ok w document Hgoto Hne) as (Hp & _).
      rewrite Hp in Hd. by apply list_elem_of_singleton in Hd.
Qed.

(** * The claims *)

(** The end-to-end example as the specification states it does not hold:
    the record printed for the example page has no phone. *)
Lemma end_to_end_example_as_stated_fails :
  ~ exists d, printed exampleWorld = [d] /\
      Emails d = [js "john.smith@example.com"] /\
      Phones d = [js "555 123 4567"] /\
      js "$1,250.00" ∈ Donations d /\
      Donors d = [mkDonorProfile (js "John Smith") [js "john.smith@example.com"]
                                 [js "555 123 4567"]].
Proof.
  intros (d & Hd & _ & Hphones & _).
  vm_compute in Hd. injection Hd as <-. discriminate Hphones.
Qed.

(** Claim C1, as the script behaves.  For a page whose text is the four
    lines "John Smith", "john.smith@example.com", "(555) 123-4567",
    "Donation: $1,250.00" and that has no mailto anchors, the run prints
    one record with Emails = ["john.smith@example.com"], Phones = [] (the
    phone pattern wants two or three digits in front of the three-digit
    group, so "(555) 123-4567" is no match), Donations = ["555", "123",
    "456", "7", "$1,250.00"], which contains "$1,250.00", and Donors equal
    to the single profile of "John Smith" with that email and no phone. *)
Theorem end_to_end_example w document :
  goto w (argv2 w) = inr document ->
  innerText document = examplePage ->
  Entities.emailLinks document = [] ->
  exists d, printed w = [d] /\
    RawText d = examplePage /\
    Emails d = [js "john.smith@example.com"] /\
    Phones d = [] /\
    Donations d = [js "555"; js "123"; js "456"; js "7"; js "$1,250.00"] /\
    js "$1,250.00" ∈ Donations d /\
    Donors d = [mkDonorProfile (js "John Smith") [js "john.smith@example.com"] []].
Proof.
  intros Hgoto Htext Hlinks.
  destruct (printed_ok w document Hgoto) as (Hp & _); [by rewrite Htext|].
  exists (dataOf w document). split; [done|].
  unfold dataOf. cbn [RawText Emails Phones Donations Donors].
  rewrite Htext, Hlinks.
  assert (Hd : Entities.uniqueDonations examplePage =
               [js "555"; js "123"; js "456"; js "7"; js "$1,250.00"])
    by (vm_compute; reflexivity).
  rewrite Hd.
  split; [done|]. split; [vm_compute; reflexivity|]. split; [vm_compute; reflexivity|].
  split; [done|]. split; [|vm_compute; reflexivity].
  rewrite !elem_of_cons. auto 10.
Qed.

(** The run on a site that serves the example page. *)
Lemma end_to_end_example_witness :
  exists d, printed exampleWorld = [d] /\
    RawText d = examplePage /\
    Emails d = [js "john.smith@example.com"] /\
    Phones d = [] /\
    Donations d = [js "555"; js "123"; js "456"; js "7"; js "$1,250.00"] /\
    js "$1,250.00" ∈ Donations d /\
    Donors d = [mkDonorProfile (js "John Smith") [js "john.smith@example.com"] []].
Proof.
  apply (end_to_end_example exampleWorld exampleDocument); reflexivity.
Defined.

(** A PDF text that repeats an email and writes a phone with dashes: the
    record keeps both copies and the dashes, the page-level extractor on
    the same text does not. *)
Lemma pdf_lists_differ_from_page_level :
  exists d rec,
    printed reportWorld = [d] /\ PDFData d = [rec] /\
    fetched reportWorld (url rec) = Some (text rec) /\
    Found.emails (extracted rec) = [js "a@b.org"; js "a@b.org"] /\
    Found.emails (pageLevel (text rec)) = [js "a@b.org"] /\
    Found.phones (extracted rec) = [js "12-555-123-4567"] /\
    Found.phones (pageLevel (text rec)) = [js "12 555 123 4567"] /\
    extracted rec <> pageLevel (text rec).
Proof.
  eexists. eexists. split; [vm_compute; reflexivity|]. cbn [PDFData].
  split; [reflexivity|]. cbn [url text extracted Found.emails Found.phones].
  split; [vm_compute; reflexivity|]. split; [reflexivity|].
  split; [vm_compute; reflexivity|]. split; [reflexivity|].
  split; [vm_compute; reflexivity|]. vm_compute. discriminate.
Qed.

(** Claim C2, as the script behaves.  Every record of PDFData belongs to
    a link whose text was fetched and is not empty, and its [extracted]
    lists are the matches of the four patterns on that text, in match
    order: phones are not normalized and nothing is deduplicated.  What
    the page-level extractor gives on the same text is obtained from
    these lists by cleaning the phones and deduplicating each list. *)
Theorem pdf_lists_are_raw_matches w d rec :
  d ∈ printed w -> rec ∈ PDFData d ->
  fetched w (url rec) = Some (text rec) /\ text rec <> [] /\
  extracted rec =
    Found.mk (orEmpty (Str.match_g (text rec) emailPattern))
             (orEmpty (Str.match_g (text rec) phonePattern))
             (orEmpty (Str.match_g (text rec) addressPattern))
             (orEmpty (Str.match_g (text rec) donationPattern)) /\
  pageLevel (text rec) =
    Found.mk (JSSet.ofArray (Found.emails (extracted rec)))
             (JSSet.ofArray (map Entities.cleanPhone (Found.phones (extracted rec))))
             (JSSet.ofArray (Found.addresses (extracted rec)))
             (JSSet.ofArray (Found.donations (extracted rec))).
Proof.
  intros Hd Hrec. apply printed_cases in Hd as (document & _ & _ & ->).
  cbn [dataOf PDFData] in Hrec.
  apply list_elem_of_omap in Hrec as (pdfUrl & _ & Hrec).
  apply pdfRecordOf_Some in Hrec as (<- & Hfetched & Htext & Hex).
  split; [done|]. split; [done|]. rewrite Hex. split; [done|].
  unfold pageLevel, Entities.ofPdfText, Entities.uniqueEmails, Entities.emails,
    Entities.uniquePhones, Entities.cleanedPhones, Entities.phones,
    Entities.uniqueAddresses, Entities.addresses, Entities.uniqueDonations,
    Entities.donations.
  cbn [Found.emails Found.phones Found.addresses Found.donations].
  by rewrite app_nil_r.
Qed.

(** The record of that PDF. *)
Lemma pdf_lists_are_raw_matches_witness :
  exists d rec, d ∈ printed reportWorld /\ rec ∈ PDFData d /\
    text rec = reportText /\
    extracted rec =
      Found.mk [js "a@b.org"; js "a@b.org"] [js "12-555-123-4567"] []
               [js "12"; js "555"; js "123"; js "456"; js "7"] /\
    pageLevel (text rec) =
      Found.mk (JSSet.ofArray (Found.emails (extracted rec)))
               (JSSet.ofArray (map Entities.cleanPhone (Found.phones (extracted rec))))
               (JSSet.ofArray (Found.addresses (extracted rec)))
               (JSSet.ofArray (Found.donations (extracted rec))).
Proof.
  assert (Hp : printed reportWorld =
               [dataOf reportWorld
                  reportDocument])
    by (vm_compute; reflexivity).
  eexists. eexists.
  assert (Hrec : mkPDFRecord (js "https://example.org/report.pdf") reportText
                   (Entities.ofPdfText reportText)
                 ∈ PDFData (dataOf reportWorld
                  reportDocument)).
  { vm_compute. apply list_elem_of_here. }
  assert (Hd : dataOf reportWorld
                  reportDocument ∈ printed reportWorld).
  { rewrite Hp. apply list_elem_of_here. }
  split; [exact Hd|]. split; [exact Hrec|]. split; [reflexivity|].
  split; [vm_compute; reflexivity|].
  exact (proj2 (proj2 (proj2 (pdf_lists_are_raw_matches _ _ _ Hd Hrec)))).
Defined.

(** Claim C3.  On every page text the donor loop returns, and in the
    profiles it returns no email is in the [emails] of two profiles and no
    normalized phone is in the [phones] of two profiles. *)
Theorem donor_exclusivity (pageText : jsstring) :
  Donor.profiles namePattern emailPattern phonePattern pageText
    = inr (donorsOf pageText) /\
  forall i j p q x,
    i <> j ->
    donorsOf pageText !! i = Some p ->
    donorsOf pageText !! j = Some q ->
    (x ∈ emails p -> x ∉ emails q) /\ (x ∈ phones p -> x ∉ phones q).
Proof.
  split; [apply profiles_total|]. intros i j p q x Hij Hp Hq.
  destruct (profiles_exclusive _ _ _ _ _ (profiles_total pageText)) as (He & Hph & _).
  split.
  - exact (NoDup_bind_apart emails _ He i j p q x Hij Hp Hq).
  - exact (NoDup_bind_apart phones _ Hph i j p q x Hij Hp Hq).
Qed.

(** Two names with overlapping windows: the second does not get the
    first one's email, which is in both windows. *)
Lemma donor_exclusivity_witness :
  donorsOf neighbours =
    [mkDonorProfile (js "John Smith") [js "john@x.com"] [js "12 555 123 4567"];
     mkDonorProfile (js "Jane Doe") [js "jane@x.com"] []] /\
  forall x,
    (x ∈ [js "john@x.com"] -> x ∉ [js "jane@x.com"]) /\
    (x ∈ [js "12 555 123 4567"] -> x ∉ @nil jsstring).
Proof.
  split; [vm_compute; reflexivity|]. intros x.
  exact (proj2 (donor_exclusivity neighbours) 0%nat 1%nat
           (mkDonorProfile (js "John Smith") [js "john@x.com"] [js "12 555 123 4567"])
           (mkDonorProfile (js "Jane Doe") [js "jane@x.com"] []) x
           ltac:(discriminate) ltac:(vm_compute; reflexivity)
           ltac:(vm_compute; reflexivity)).
Defined.

(** Claim C4.  Whenever a string [x] occurs in the array of email
    matches and mailto links (in the array of cleaned phones), first after
    the prefix [l1], the deduplicated Emails (Phones) are the deduplicated
    [l1], then [x], then a rest without [x]: [x] is there exactly once, at
    the place of its first occurrence, however often it occurs in [l2]. *)
Theorem deduplication_first_occurrence (pageText : jsstring) (links : list jsstring)
    (x : jsstring) (l1 l2 : list jsstring) :
  (Entities.emails pageText links = l1 ++ x :: l2 -> x ∉ l1 ->
   exists r, Entities.uniqueEmails pageText links = JSSet.ofArray l1 ++ x :: r /\
             (x ∉ JSSet.ofArray l1) /\ x ∉ r) /\
  (Entities.cleanedPhones pageText = l1 ++ x :: l2 -> x ∉ l1 ->
   exists r, Entities.uniquePhones pageText = JSSet.ofArray l1 ++ x :: r /\
             (x ∉ JSSet.ofArray l1) /\ x ∉ r).
Proof.
  unfold Entities.uniqueEmails, Entities.uniquePhones.
  split; intros -> Hx; by apply ofArray_first.
Qed.

(** A text with the email "a@b.org" twice and one phone number in two
    spellings, and a mailto link that repeats an email of the text. *)
Lemma deduplication_first_occurrence_witness :
  (exists r, Entities.uniqueEmails repeated [js "c@d.org"; js "e@f.org"]
             = JSSet.ofArray [js "a@b.org"; js "c@d.org"; js "a@b.org"] ++ js "e@f.org" :: r) /\
  (exists r, Entities.uniqueEmails repeated [] = JSSet.ofArray [] ++ (js "a@b.org" :: r) /\
             js "a@b.org" ∉ r) /\
  (exists r, Entities.uniquePhones repeated = JSSet.ofArray [] ++ (js "12 555 123 4567" :: r) /\
             js "12 555 123 4567" ∉ r) /\
  Entities.uniqueEmails repeated [] = [js "a@b.org"; js "c@d.org"] /\
  Entities.uniquePhones repeated = [js "12 555 123 4567"; js "34 555 123 4567"].
Proof.
  split; [|split; [|split]].
  - destruct (proj1 (deduplication_first_occurrence
                       repeated [js "c@d.org"; js "e@f.org"] (js "e@f.org")
                       [js "a@b.org"; js "c@d.org"; js "a@b.org"; js "c@d.org"] []))
      as (r & Hr & _); [vm_compute; reflexivity| |].
    + rewrite !elem_of_cons, elem_of_nil. intros [H|[H|[H|[H|[]]]]]; discriminate H.
    + exists r. rewrite Hr. f_equal.
  - destruct (proj1 (deduplication_first_occurrence
                       repeated [] (js "a@b.org") [] [js "c@d.org"; js "a@b.org"]))
      as (r & Hr & _ & Hnot); [vm_compute; reflexivity|apply not_elem_of_nil|].
    exists r. by split.
  - destruct (proj2 (deduplication_first_occurrence repeated [] (js "12 555 123 4567") []
                       [js "12 555 123 4567"; js "34 555 123 4567"]))
      as (r & Hr & _ & Hnot); [vm_compute; reflexivity|apply not_elem_of_nil|].
    exists r. by split.
  - split; vm_compute; reflexivity.
Defined.

(** Claim C5.  When the page loads and its text is empty, the run writes
    no file and makes no directory, prints no record, and reports the
    failure on stderr before closing the browser: the report is what
    [console.error] prints for the two arguments
    "Error processing URL <url>:" and "Page content is empty", it starts
    with "Error processing URL ", and for a URL without "%" it reads
    "Error processing URL <url>: Page content is empty". *)
Theorem empty_page_aborts w document :
  goto w (argv2 w) = inr document ->
  innerText document = [] ->
  files (Script.run w) = ∅ /\
  dirs (Script.run w) = [] /\
  printed w = [] /\
  stdout (Script.run w) = [Plain (js "Navigating to URL: " ++ argv2 w)] /\
  (exists report,
     stderr (Script.run w) = [Plain report; Plain (js "Browser closed.")] /\
     report = consoleFormat w [js "Error processing URL " ++ argv2 w ++ js ":";
                               js "Page content is empty"] /\
     Str.startsWith report (js "Error processing URL ") = true /\
     (percentFree (argv2 w) ->
      report = js "Error processing URL " ++ argv2 w ++ js ": Page content is empty")) /\
  browserClosed (Script.run w) = true.
Proof.
  intros Hgoto Htext. unfold printed, Script.run.
  rewrite (main_empty w document Hgoto Htext). cbn [fst files dirs stdout stderr browserClosed].
  do 4 (split; [done|]). split; [|done].
  eexists. split; [reflexivity|]. split; [reflexivity|]. split.
  - destruct (consoleFormat_prefix w (js "Error processing URL ") (argv2 w ++ js ":")
                (js "Page content is empty")) as (tail & ->); [percent_free|].
    apply startsWith_app.
  - intros Hfree. rewrite consoleFormat_free.
    + by rewrite <- !app_assoc.
    + rewrite !percentFree_app. split; [percent_free|]. split; [done|percent_free].
Qed.

(** The run on a page without text, although it links a PDF. *)
Lemma empty_page_aborts_witness :
  files (Script.run blankWorld) = ∅ /\
  dirs (Script.run blankWorld) = [] /\
  printed blankWorld = [] /\
  stdout (Script.run blankWorld) = [Plain (js "Navigating to URL: https://example.org/donors")] /\
  stderr (Script.run blankWorld) =
    [Plain (js "Error processing URL https://example.org/donors: Page content is empty");
     Plain (js "Browser closed.")] /\
  browserClosed (Script.run blankWorld) = true.
Proof.
  destruct (empty_page_aborts blankWorld blankDocument eq_refl eq_refl)
    as (Hfiles & Hdirs & Hprinted & Hout & (report & Herr & _ & _ & Hplain) & Hclosed).
  rewrite Hfiles, Hdirs, Hprinted, Hout, Herr, Hclosed.
  rewrite (Hplain ltac:(percent_free)). repeat split.
Defined.

(** Claim C6.  When the page loads with text, the run prints one record
    and writes it to [extracted_data.json], whatever the PDF links do;
    the lists and the profiles of the record are those of the page.
    PDFData has, in link order, one entry for each link of PDFLinks whose
    text was fetched and is not empty: a failing link (the page, its
    content, the write of the file or the parse fails) contributes none,
    every other link is still processed, the failures and the entries add
    up to the links when no fetched text is empty, and with three links
    of which one fails and two yield text PDFData has two entries. *)
Theorem pdf_isolation w document :
  goto w (argv2 w) = inr document ->
  innerText document <> [] ->
  exists d,
    printed w = [d] /\
    files (Script.run w) !! dataPath w = Some (Stringify d 2) /\
    browserClosed (Script.run w) = true /\
    RawText d = innerText document /\
    Emails d = Entities.uniqueEmails (innerText document) (Entities.emailLinks document) /\
    Phones d = Entities.uniquePhones (innerText document) /\
    Addresses d = Entities.uniqueAddresses (innerText document) /\
    Donations d = Entities.uniqueDonations (innerText document) /\
    Donors d = donorsOf (innerText document) /\
    PDFLinks d = Entities.uniquePdfLinks document /\
    PDFData d = omap (pdfRecordOf w) (PDFLinks d) /\
    (forall pdfUrl,
       (exists e, goto w pdfUrl = inl e) \/ (exists e, saveError w pdfUrl = Some e) ->
       fails w pdfUrl) /\
    (forall pdfUrl rec, fails w pdfUrl -> rec ∈ PDFData d -> url rec <> pdfUrl) /\
    (forall pdfUrl pdfText,
       pdfUrl ∈ PDFLinks d -> fetched w pdfUrl = Some pdfText -> pdfText <> [] ->
       mkPDFRecord pdfUrl pdfText (Entities.ofPdfText pdfText) ∈ PDFData d) /\
    ((forall pdfUrl, pdfUrl ∈ PDFLinks d -> fails w pdfUrl \/ yieldsText w pdfUrl) ->
     (length (PDFData d) + length (filter (fails w) (PDFLinks d))
      = length (PDFLinks d))%nat) /\
    (forall a b c,
       PDFLinks d = [a; b; c] ->
       (fails w a /\ yieldsText w b /\ yieldsText w c) \/
       (yieldsText w a /\ fails w b /\ yieldsText w c) \/
       (yieldsText w a /\ yieldsText w b /\ fails w c) ->
       length (PDFData d) = 2%nat).
Proof.
  intros Hgoto Htext.
  destruct (printed_ok w document Hgoto Htext) as (Hp & Hfile & Hclosed).
  exists (dataOf w document). split; [done|]. split; [done|]. split; [done|].
  cbn [dataOf RawText Emails Phones Addresses Donations Donors PDFLinks PDFData].
  do 8 (split; [done|]).
  split; [|split; [|split; [|split]]].
  - intros pdfUrl [(e & He)|(e & He)]; unfold fails, fetched; rewrite He; [done|].
    destruct (goto w pdfUrl) as [e'|pdfPage]; [done|]. by destruct (innerHTML pdfPage).
  - intros pdfUrl rec Hf Hrec Hurl.
    apply list_elem_of_omap in Hrec as (u & _ & Hrec).
    apply pdfRecordOf_Some in Hrec as (Hu & Hfetched & _). unfold fails in Hf. congruence.
  - intros pdfUrl pdfText Hin Hfetched Hne. apply list_elem_of_omap. exists pdfUrl.
    split; [done|]. unfold pdfRecordOf. rewrite Hfetched. by destruct pdfText.
  - apply pdfData_length.
  - intros a b c Hlinks Hcase. rewrite Hlinks. cbn [omap list_omap].
    destruct Hcase as [(Ha & Hb & Hc)|[(Ha & Hb & Hc)|(Ha & Hb & Hc)]];
      repeat match goal with
             | H : fails w ?u |- _ => rewrite (pdfRecordOf_fails w u H); clear H
             | H : yieldsText w ?u |- _ =>
                 let entry := fresh "entry" in
                 destruct (pdfRecordOf_yields w u H) as (entry & ->); clear H
             end; reflexivity.
Qed.

(** Three distinct links, the second refused by the server: two
    entries.  The same when the second is served and the file system
    refuses its file. *)
Lemma pdf_isolation_witness :
  (exists d,
     printed threeLinks = [d] /\
     files (Script.run threeLinks) !! dataPath threeLinks = Some (Stringify d 2) /\
     PDFLinks d = [js "https://example.org/a.pdf"; js "https://example.org/b.pdf";
                   js "https://example.org/c.pdf"] /\
     map url (PDFData d) = [js "https://example.org/a.pdf"; js "https://example.org/c.pdf"] /\
     length (PDFData d) = 2%nat) /\
  (exists d,
     printed refusedWrite = [d] /\
     fails refusedWrite (js "https://example.org/b.pdf") /\
     map url (PDFData d) = [js "https://example.org/a.pdf"; js "https://example.org/c.pdf"]).
Proof.
  split.
  2:{ destruct (pdf_isolation refusedWrite threeLinksDocument eq_refl ltac:(discriminate))
        as (d & Hp & _ & _ & _ & _ & _ & _ & _ & _ & Hlinks & Hdata & Hfails & _).
      exists d. split; [exact Hp|]. split.
      - apply Hfails. right. eexists. vm_compute. reflexivity.
      - rewrite Hdata, Hlinks. vm_compute. reflexivity. }
  destruct (pdf_isolation threeLinks threeLinksDocument eq_refl ltac:(discriminate))
    as (d & Hp & Hfile & _ & _ & _ & _ & _ & _ & _ & Hlinks & Hdata & _ & _ & _ & _ & Hthree).
  exists d. split; [exact Hp|]. split; [exact Hfile|].
  assert (Hl : PDFLinks d = [js "https://example.org/a.pdf"; js "https://example.org/b.pdf";
                  js "https://example.org/c.pdf"]) by (rewrite Hlinks; vm_compute; reflexivity).
  split; [exact Hl|]. split.
  - rewrite Hdata, Hl. vm_compute. reflexivity.
  - apply (Hthree _ _ _ Hl). right. left.
    split; [|split].
    + eexists. split; [vm_compute; reflexivity|discriminate].
    + vm_compute. reflexivity.
    + eexists. split; [vm_compute; reflexivity|discriminate].
Defined.

(** Claim C7.  Whatever the name pattern, every profile the donor loop
    emits has a name longer than 4 code units and a non-empty email or
    phone list, and an iteration whose matched name has 4 code units or
    fewer leaves the profiles as they were.  With the script's pattern the
    loop always returns, and on "Al B
john@x.com" it returns no profile. *)
Theorem name_length_gate (np : regex) (pageText : jsstring) (ps : list DonorProfile) :
  Donor.profiles np emailPattern phonePattern pageText = inr ps ->
  (forall p, p ∈ ps ->
     (4 < length (name p))%nat /\ (emails p <> [] \/ phones p <> [])) /\
  (forall (i : nat) r n before st,
     Donor.after np emailPattern phonePattern (Donor.linesOf pageText) i = inr before ->
     Donor.after np emailPattern phonePattern (Donor.linesOf pageText) (S i) = inr st ->
     nameMatchAt np (Donor.linesOf pageText) (Z.of_nat i) = Some r ->
     group r 1 = Some n -> (length n <= 4)%nat ->
     Donor.donorProfiles st = Donor.donorProfiles before) /\
  Donor.profiles namePattern emailPattern phonePattern pageText
    = inr (donorsOf pageText) /\
  donorsOf shortName = [].
Proof.
  intros Hps. split; [|split; [|split]].
  - apply profiles_exclusive in Hps as (_ & _ & Hg).
    intros p Hp. by apply (proj1 (Forall_forall _ _) Hg).
  - intros i r n before st Hb Hs Hr Hn Hlen.
    apply after_split in Hs as (before' & Hb' & Hstep).
    rewrite Hb in Hb'. injection Hb' as <-.
    apply step_spec in Hstep as (fe & fp & _ & _ & _ & Hname).
    destruct (Hname r Hr) as (_ & _ & Hshort). by apply (Hshort n).
  - apply profiles_total.
  - vm_compute. reflexivity.
Qed.

(** With a pattern that does match "Al B": the email in its window is
    used up, and no profile is emitted. *)
Lemma name_length_gate_witness :
  (forall p, p ∈ @nil DonorProfile ->
     (4 < length (name p))%nat /\ (emails p <> [] \/ phones p <> [])) /\
  nameMatchAt looseNamePattern (Donor.linesOf shortName) 0 <> None /\
  Donor.after looseNamePattern emailPattern phonePattern (Donor.linesOf shortName) 1
    = inr (Donor.mkDonorState [] [js "john@x.com"] []).
Proof.
  assert (Hps : Donor.profiles looseNamePattern emailPattern phonePattern shortName = inr [])
    by (vm_compute; reflexivity).
  destruct (name_length_gate looseNamePattern shortName [] Hps) as (Hgate & Hshort & _).
  split; [exact Hgate|]. split; [vm_compute; discriminate|].
  vm_compute. reflexivity.
Defined.

(** Claim C8.  Cleaning a phone string (every run of dashes, dots and
    white space replaced by one space, then trimmed) a second time changes
    nothing. *)
Theorem phone_cleaning_idempotent (phone : jsstring) :
  Entities.cleanPhone (Entities.cleanPhone phone) = Entities.cleanPhone phone.
Proof.
  rewrite !cleanPhone_squeeze.
  rewrite (squeeze_squeezed (Str.trim _)) by apply squeezed_trim, squeezed_squeeze.
  apply trim_trim.
Qed.

(** Claim C9.  Whatever the name pattern, when line [i] has a name match
    and line [k] lies in its window, every email and cleaned phone matched
    in line [k] is in the used sets after iteration [i], also when the
    name has 4 code units or fewer and the iteration emits no profile; and
    no profile emitted by a later iteration lists such a contact. *)
Theorem contacts_consumed_by_discarded_name (np : regex) (pageText : jsstring)
    (i : nat) (r : MatchResult) (k : Z) (l : jsstring) (final : Donor.State) :
  Donor.loop np emailPattern phonePattern (Donor.linesOf pageText) = inr final ->
  nameMatchAt np (Donor.linesOf pageText) (Z.of_nat i) = Some r ->
  (Donor.windowLo (Z.of_nat i) <= k <= Donor.windowHi (Donor.linesOf pageText) (Z.of_nat i))%Z ->
  Donor.item (Donor.linesOf pageText) k = Some l ->
  exists before st later,
    Donor.after np emailPattern phonePattern (Donor.linesOf pageText) i = inr before /\
    Donor.after np emailPattern phonePattern (Donor.linesOf pageText) (S i) = inr st /\
    (forall x, x ∈ Donor.emailMatches emailPattern l -> x ∈ Donor.usedEmails st) /\
    (forall x, x ∈ Donor.phoneMatches phonePattern l -> x ∈ Donor.usedPhones st) /\
    (forall n, group r 1 = Some n -> (length n <= 4)%nat ->
               Donor.donorProfiles st = Donor.donorProfiles before) /\
    Donor.donorProfiles final = Donor.donorProfiles st ++ later /\
    (forall p x, p ∈ later ->
       (x ∈ Donor.emailMatches emailPattern l -> x ∉ emails p) /\
       (x ∈ Donor.phoneMatches phonePattern l -> x ∉ phones p)).
Proof.
  intros Hloop Hname Hk Hl. set (lines := Donor.linesOf pageText) in *.
  assert (Hi : (i < length lines)%nat).
  { unfold nameMatchAt, Donor.item in Hname.
    destruct (Z.ltb_spec (Z.of_nat i) 0); [done|]. rewrite Nat2Z.id in Hname.
    destruct (lines !! i) eqn:Hlook; [|done]. by apply lookup_lt_Some in Hlook. }
  destruct (loop_split _ _ _ _ i final Hi Hloop) as (st & Hst & Htail).
  destruct (after_split _ _ _ _ _ _ Hst) as (before & Hbefore & Hstep).
  apply step_spec in Hstep as (fe & fp & _ & _ & _ & Hspec).
  destruct (Hspec r Hname) as (Hce & Hcp & Hshort).
  apply run_fresh in Htail as (later & Hlater & Hfresh & _ & _).
  exists before, st, later. split; [done|]. split; [done|].
  assert (He : forall x, x ∈ Donor.emailMatches emailPattern l -> x ∈ Donor.usedEmails st)
    by (intros x; by apply (Hce k l x)).
  assert (Hp : forall x, x ∈ Donor.phoneMatches phonePattern l -> x ∈ Donor.usedPhones st)
    by (intros x; by apply (Hcp k l x)).
  split; [done|]. split; [done|]. split; [done|]. split; [done|].
  intros p x Hin. destruct (Hfresh p x Hin) as [H1 H2].
  split; intros Hx Hxp; [apply (H1 Hxp), He|apply (H2 Hxp), Hp]; done.
Qed.

(** With a pattern that does match "Al B", the email of the next line is
    consumed by the discarded name and "Jane Doe" two lines further gets
    nothing, where the script's own pattern, which does not match "Al B",
    gives her the email.  With the script's pattern on two neighbouring
    names, the contacts in the window of "John Smith" are used after his
    iteration and stay out of the later profile. *)
Lemma contacts_consumed_by_discarded_name_witness :
  (exists before st later,
     Donor.after looseNamePattern emailPattern phonePattern (Donor.linesOf shortThenLong) 0
       = inr before /\
     Donor.after looseNamePattern emailPattern phonePattern (Donor.linesOf shortThenLong) 1
       = inr st /\
     js "john@x.com" ∈ Donor.usedEmails st /\
     Donor.donorProfiles st = Donor.donorProfiles before /\
     Donor.donorProfiles before = [] /\
     [] = Donor.donorProfiles st ++ later /\
     (forall p, p ∈ later -> js "john@x.com" ∉ emails p) /\
     donorsOf shortThenLong
       = [mkDonorProfile (js "Jane Doe") [js "john@x.com"] []]) /\
  (exists st later,
     Donor.after namePattern emailPattern phonePattern (Donor.linesOf neighbours) 1
       = inr st /\
     js "john@x.com" ∈ Donor.usedEmails st /\
     js "12 555 123 4567" ∈ Donor.usedPhones st /\
     donorsOf neighbours = Donor.donorProfiles st ++ later /\
     (forall p, p ∈ later ->
        (js "john@x.com" ∉ emails p) /\ (js "12 555 123 4567" ∉ phones p))).
Proof.
  split.
  - destruct (contacts_consumed_by_discarded_name looseNamePattern shortThenLong 0
                (mkResult (js "Al B") (lookupCapture [(1%nat, js "Al B")]))
                1%Z (js "john@x.com") (Donor.mkDonorState [] [js "john@x.com"] []))
      as (before & st & later & Hb & Hs & He & _ & Hshort & Hfinal & Hlater);
      [vm_compute; reflexivity|vm_compute; reflexivity|vm_compute; split; discriminate
      |vm_compute; reflexivity|].
    exists before, st, later. split; [exact Hb|]. split; [exact Hs|].
    split; [apply He; vm_compute; apply list_elem_of_here|].
    split; [apply (Hshort (js "Al B")); [reflexivity|vm_compute; lia]|].
    split; [|split; [exact Hfinal|split]].
    + vm_compute in Hb. by injection Hb as <-.
    + intros p Hp. apply (Hlater p (js "john@x.com") Hp). vm_compute. apply list_elem_of_here.
    + vm_compute. reflexivity.
  - destruct (contacts_consumed_by_discarded_name namePattern neighbours 0
                (mkResult (js "John Smith") (lookupCapture [(1%nat, js "John Smith")]))
                1%Z (js "john@x.com 12 555 123 4567")
                (Donor.mkDonorState (donorsOf neighbours)
                                    [js "john@x.com"; js "jane@x.com"]
                                    [js "12 555 123 4567"]))
      as (before & st & later & _ & Hs & He & Hp & _ & Hfinal & Hlater);
      [vm_compute; reflexivity|vm_compute; reflexivity|vm_compute; split; discriminate
      |vm_compute; reflexivity|].
    exists st, later. split; [exact Hs|].
    split; [apply He; vm_compute; apply list_elem_of_here|].
    split; [apply Hp; vm_compute; apply list_elem_of_here|].
    split; [exact Hfinal|].
    intros p Hin. split.
    + apply (Hlater p (js "john@x.com") Hin). vm_compute. apply list_elem_of_here.
    + apply (Hlater p (js "12 555 123 4567") Hin). vm_compute. apply list_elem_of_here.
Defined.

(** Claim C10.  Phone cleaning keeps every code unit that is not a dash,
    a dot or white space, in order, and leaves no separator but single
    spaces.  Parentheses are kept: "12 (555) 123-4567" is matched by the
    phone pattern and cleans to "12 (555) 123 4567", at line 81 as at line
    147, and the two renderings "12 (555) 123-4567" and "12 555 123-4567"
    stay two elements of Phones. *)
Theorem phone_cleaning_keeps_parentheses :
  (forall phone,
     List.filter keptByCleaning (Entities.cleanPhone phone)
       = List.filter keptByCleaning phone) /\
  (forall phone c,
     c ∈ Entities.cleanPhone phone -> isSeparator c = true -> c = SP) /\
  keptByCleaning (chr "(") = true /\ keptByCleaning (chr ")") = true /\
  Entities.phones (js "12 (555) 123-4567") = [js "12 (555) 123-4567"] /\
  Entities.cleanPhone (js "12 (555) 123-4567") = js "12 (555) 123 4567" /\
  Donor.phoneMatches phonePattern (js "12 (555) 123-4567") = [js "12 (555) 123 4567"] /\
  Entities.uniquePhones (js "12 (555) 123-4567 or 12 555 123-4567")
    = [js "12 (555) 123 4567"; js "12 555 123 4567"].
Proof.
  split; [apply kept_cleanPhone|]. split.
  - intros phone c. rewrite cleanPhone_squeeze.
    apply squeezed_separators, squeezed_trim, squeezed_squeeze.
  - repeat split; vm_compute; reflexivity.
Qed.

(** * Further properties of the script *)

(** ** What a match looks like *)

Lemma segment_refl x : segment x x [].
Proof. by split. Qed.

Lemma segment_trans x y z s1 s2 :
  segment x y s1 -> segment y z s2 -> segment x z (s1 ++ s2).
Proof.
  intros [H1 H2] [H3 H4]. split.
  - by rewrite H1, H3, app_assoc.
  - by rewrite H4, H2, rev_app_distr, app_assoc.
Qed.

Lemma segment_clear gs x y s : segment (clearCaptures gs x) y s -> segment x y s.
Proof. done. Qed.

Lemma segment_consumed x y s : segment x y s -> consumed x y = s.
Proof.
  intros [_ Hseen]. unfold consumed, endIndex. rewrite Hseen, length_app, length_rev.
  replace (length s + length (seen x) - length (seen x))%nat with (length (rev s))
    by (rewrite length_rev; lia).
  by rewrite take_app_length, rev_involutive.
Qed.

Lemma repeatMatcher_sound (m : Matcher) gs (L : jsstring -> Prop) :
  (forall x c z, m x c = Some z -> exists y s, c y = Some z /\ segment x y s /\ L s) ->
  forall fuel min max x c z,
    match max with Some n => (min <= n)%nat | None => True end ->
    repeatMatcher fuel m gs min max x c = Some z ->
    exists y pieces,
      c y = Some z /\ segment x y (concat pieces) /\ Forall L pieces /\
      (min <= length pieces)%nat /\
      match max with Some n => (length pieces <= n)%nat | None => True end.
Proof.
  intros Hm. induction fuel as [|fuel IH]; intros min max x c z Hwf; [done|].
  cbn [repeatMatcher].
  assert (Hstop : c x = Some z -> (min = 0)%nat ->
    exists y pieces,
      c y = Some z /\ segment x y (concat pieces) /\ Forall L pieces /\
      (min <= length pieces)%nat /\
      match max with Some n => (length pieces <= n)%nat | None => True end).
  { intros Hc ->. exists x, []. split; [done|]. split; [apply segment_refl|].
    split; [constructor|]. split; [done|]. destruct max; cbn; [lia|done]. }
  case_bool_decide as Hmax.
  { subst max. intros Hc. apply Hstop; [done|lia]. }
  pose (d := fun y : MatchState =>
    if bool_decide (min = 0%nat) && bool_decide (endIndex y = endIndex x) then None
    else repeatMatcher fuel m gs (Nat.pred min) (decr max) y c).
  assert (Hd : forall z, m (clearCaptures gs x) d = Some z ->
    exists y pieces,
      c y = Some z /\ segment x y (concat pieces) /\ Forall L pieces /\
      (min <= length pieces)%nat /\
      match max with Some n => (length pieces <= n)%nat | None => True end).
  { intros z' Hz. apply Hm in Hz as (y & s & Hy & Hseg & Hs). unfold d in Hy.
    destruct (_ && _); [done|].
    apply IH in Hy as (y' & pieces & Hy' & Hseg' & Hall & Hmin' & Hmax').
    - exists y', (s :: pieces). split; [done|]. split.
      + cbn [concat]. apply (segment_trans x y y'); [by apply segment_clear in Hseg|done].
      + split; [by constructor|]. cbn [length]. split; [lia|].
        destruct max as [n|]; [|done]. cbn in Hmax'. destruct n; [done|]. cbn in Hmax'. lia.
    - destruct max as [n|]; [|done]. cbn. destruct n; [done|]. cbn. lia. }
  fold d. case_bool_decide as Hmin; [apply Hd|].
  destruct (m (clearCaptures gs x) d) as [z'|] eqn:Hz.
  - intros [= <-]. by apply Hd.
  - intros Hc. by apply Hstop.
Qed.

(** What the matcher consumes belongs to the language of the pattern. *)
Lemma matcher_sound r : wellFormed r = true ->
  forall x c z, matcher r x c = Some z ->
    exists y s, c y = Some z /\ segment x y s /\ Lang r s.
Proof.
  induction r as [|p|r1 IH1 r2 IH2|r IH min max|n r IH| | |]; intros Hwf x c z;
    cbn [matcher Lang]; cbn [wellFormed] in Hwf.
  - intros H. exists x, []. split; [done|]. split; [apply segment_refl|done].
  - destruct (rest x) as [|ch s] eqn:Hx; [done|]. destruct (p ch) eqn:Hp; [|done].
    intros H. eexists _, [ch]. split; [exact H|]. split; [by split|]. by exists ch.
  - apply andb_true_iff in Hwf as [H1 H2]. intros H.
    apply (IH1 H1) in H as (y & s1 & H & Hseg1 & Hs1).
    apply (IH2 H2) in H as (y' & s2 & H & Hseg2 & Hs2).
    exists y', (s1 ++ s2). split; [done|]. split; [by apply (segment_trans x y y')|].
    by exists s1, s2.
  - apply andb_true_iff in Hwf as [Hmm Hr]. intros H.
    apply (repeatMatcher_sound _ _ (Lang r) (IH Hr)) in H
      as (y & pieces & H & Hseg & Hall & Hmin & Hmax).
    + exists y, (concat pieces). split; [done|]. split; [done|]. by exists pieces.
    + destruct max; [by apply bool_decide_eq_true in Hmm|done].
  - intros H. apply (IH Hwf) in H as (y & s & H & Hseg & Hs).
    eexists _, s. split; [exact H|]. split; [exact Hseg|done].
  - destruct (seen x); [|done]. intros H. exists x, []. split; [done|]. split; [apply segment_refl|done].
  - destruct (rest x); [|done]. intros H. exists x, []. split; [done|]. split; [apply segment_refl|done].
  - destruct (xorb _ _); [|done]. intros H. exists x, []. split; [done|].
    split; [apply segment_refl|done].
Qed.

Lemma matchAt_sound r before after y :
  wellFormed r = true -> matchAt r before after = Some y ->
  after = matched before y ++ rest y /\ seen y = rev (matched before y) ++ before /\
  Lang r (matched before y).
Proof.
  intros Hwf H. apply (matcher_sound r Hwf) in H as (y' & s & [= ->] & [Hrest Hseen] & Hs).
  cbn in Hrest, Hseen.
  assert (Hm : matched before y = s).
  { unfold matched. rewrite Hseen, length_app, length_rev.
    replace (length s + length before - length before)%nat with (length (rev s))
      by (rewrite length_rev; lia).
    by rewrite take_app_length, rev_involutive. }
  by rewrite Hm.
Qed.

Lemma scan_sound r after : wellFormed r = true ->
  forall before skip m,
    m ∈ scan r before after skip -> Lang r m /\ substring m after.
Proof.
  intros Hwf. induction after as [|c after IH]; intros before skip m.
  - destruct skip; cbn [scan]; [|by rewrite elem_of_nil].
    destruct (matchAt r before []) as [y|] eqn:Hy; [|by rewrite elem_of_nil].
    rewrite list_elem_of_singleton. intros ->.
    destruct (matchAt_sound _ _ _ _ Hwf Hy) as (Hafter & _ & Hlang).
    split; [done|]. exists [], (rest y). done.
  - assert (Htail : forall before' skip',
      m ∈ scan r before' after skip' -> Lang r m /\ substring m (c :: after)).
    { intros before' skip' Hm. destruct (IH _ _ _ Hm) as (Hl & pre & post & ->).
      split; [done|]. by exists (c :: pre), post. }
    destruct skip; cbn [scan]; [|apply Htail].
    destruct (matchAt r before (c :: after)) as [y|] eqn:Hy; [|apply Htail].
    rewrite elem_of_cons. intros [->|Hm]; [|by apply Htail in Hm].
    destruct (matchAt_sound _ _ _ _ Hwf Hy) as (Hafter & _ & Hlang).
    split; [done|]. exists [], (rest y). done.
Qed.

(** Every element of [s.match(r) || []] for a pattern with the [g] flag
    is a substring of [s] in the language of [r]. *)
Lemma match_g_sound r s m :
  wellFormed r = true -> m ∈ orEmpty (Str.match_g s r) -> Lang r m /\ substring m s.
Proof.
  intros Hwf. unfold Str.match_g.
  destruct (scan r [] s 0) as [|m0 ms] eqn:Hscan; [cbn; by rewrite elem_of_nil|].
  cbn [orEmpty default]. rewrite <- Hscan. by apply scan_sound.
Qed.

Lemma Lang_within q r : classesWithin q r ->
  forall s, Lang r s -> Forall (fun c => q c = true) s.
Proof.
  induction r as [|p|r1 IH1 r2 IH2|r IH min max|n r IH| | |]; cbn [classesWithin Lang];
    intros Hq s Hs; try (subst s; constructor).
  - destruct Hs as (c & -> & Hc). repeat constructor. by apply Hq.
  - destruct Hq as [Hq1 Hq2]. destruct Hs as (s1 & s2 & -> & Hs1 & Hs2).
    apply Forall_app. split; [by apply IH1|by apply IH2].
  - destruct Hs as (pieces & -> & Hall & _). clear min max.
    induction Hall as [|piece pieces Hp _ IHp]; [constructor|].
    cbn [concat]. apply Forall_app. split; [by apply IH|done].
  - by apply IH.
Qed.

Lemma Lang_minLength r : forall s, Lang r s -> (minLength r <= length s)%nat.
Proof.
  induction r as [|p|r1 IH1 r2 IH2|r IH min max|n r IH| | |]; cbn [minLength Lang];
    intros s Hs; try lia.
  - destruct Hs as (c & -> & _). done.
  - destruct Hs as (s1 & s2 & -> & Hs1 & Hs2). rewrite length_app.
    specialize (IH1 _ Hs1). specialize (IH2 _ Hs2). lia.
  - destruct Hs as (pieces & -> & Hall & Hlen & _).
    assert (H : (length pieces * minLength r <= length (concat pieces))%nat).
    { clear Hlen. induction Hall as [|piece pieces Hp _ IHp]; [done|].
      cbn [concat length]. rewrite length_app. specialize (IH _ Hp). lia. }
    nia.
  - by apply IH.
Qed.

Lemma Lang_guarantees q r : forall n s,
  guarantees q r n -> Lang r s -> (n <= length (List.filter q s))%nat.
Proof.
  induction r as [|p|r1 IH1 r2 IH2|r IH min max|k r IH| | |]; cbn [guarantees Lang];
    intros n s Hn Hs; try (subst n; lia).
  - destruct Hn as [->|[-> Hq]]; [lia|]. destruct Hs as (c & -> & Hc).
    cbn. by rewrite (Hq c Hc).
  - destruct Hn as (n1 & n2 & -> & Hn1 & Hn2). destruct Hs as (s1 & s2 & -> & Hs1 & Hs2).
    rewrite List.filter_app, length_app.
    specialize (IH1 _ _ Hn1 Hs1). specialize (IH2 _ _ Hn2 Hs2). lia.
  - destruct Hn as (k & -> & Hk). destruct Hs as (pieces & -> & Hall & Hlen & _).
    assert (H : (length pieces * k <= length (List.filter q (concat pieces)))%nat).
    { clear Hlen. induction Hall as [|piece pieces Hp _ IHp]; [cbn; lia|].
      cbn [concat length]. rewrite List.filter_app, length_app.
      specialize (IH _ _ Hk Hp). lia. }
    nia.
  - by apply IH.
Qed.

(** A quantified class consumes a run of the class, of a length within
    the bounds. *)
Lemma Lang_class_run p min max s :
  Lang (Quant (CharSet p) min max) s ->
  Forall (fun c => p c = true) s /\ (min <= length s)%nat /\
  match max with Some m => (length s <= m)%nat | None => True end.
Proof.
  cbn [Lang]. intros (pieces & -> & Hall & Hmin & Hmax).
  assert (H : Forall (fun c => p c = true) (concat pieces) /\
              length (concat pieces) = length pieces).
  { clear Hmin Hmax. induction Hall as [|piece pieces (c & -> & Hc) _ [IH1 IH2]]; [done|].
    cbn. split; [by constructor|by rewrite IH2]. }
  destruct H as [H1 H2]. rewrite H2. done.
Qed.

Lemma Lang_Char c s : Lang (Char c) s -> s = [c].
Proof. cbn. intros (c' & -> & Hc). apply N.eqb_eq in Hc. by subst. Qed.

(** Replacing every code unit of a class works unit by unit. *)
Lemma substitute_class p repl after : forall before,
  substitute (CharSet p) repl before after 0 =
    after ≫= (fun c => if p c then repl else [c]).
Proof.
  induction after as [|c after IH]; intros before; [done|].
  cbn [substitute]. unfold matchAt. cbn [matcher rest seen captures].
  rewrite bind_cons. destruct (p c).
  - replace (matched before (mkState (c :: before) after [])) with [c]
      by (symmetry; apply (matched_advance before [c])).
    cbn [length]. by rewrite IH.
  - cbn [app]. by rewrite IH.
Qed.

Lemma bind_unchanged (p : N -> bool) repl (s : jsstring) :
  Forall (fun c => p c = false) s ->
  s ≫= (fun c => if p c then repl else [c]) = s.
Proof.
  induction 1 as [|c s Hc _ IH]; [done|]. rewrite bind_cons, Hc, IH. done.
Qed.

(** A pattern that needs a code unit of [q] matches nowhere in a string
    without one, so replacing its first match changes nothing. *)
Lemma matchAt_needs q r before after :
  wellFormed r = true -> guarantees q r 1 ->
  Forall (fun c => q c = false) after -> matchAt r before after = None.
Proof.
  intros Hwf Hq Hafter. destruct (matchAt r before after) as [y|] eqn:Hy; [|done].
  exfalso. destruct (matchAt_sound _ _ _ _ Hwf Hy) as (Hs & _ & Hl).
  apply (Lang_guarantees q r _ _ Hq) in Hl.
  rewrite Hs in Hafter. apply Forall_app in Hafter as [Hm _].
  destruct (List.filter q (matched before y)) as [|c f] eqn:Hf; [cbn in Hl; lia|].
  assert (Hc : In c (List.filter q (matched before y))) by (rewrite Hf; by left).
  apply List.filter_In in Hc as [Hc Hqc]. apply list_elem_of_In in Hc.
  rewrite Forall_forall in Hm. specialize (Hm c Hc). congruence.
Qed.

Lemma substituteFirst_needs q r repl after : forall before,
  wellFormed r = true -> guarantees q r 1 ->
  Forall (fun c => q c = false) after -> substituteFirst r repl before after = after.
Proof.
  induction after as [|c after IH]; intros before Hwf Hq Hafter.
  - cbn [substituteFirst]. by rewrite (matchAt_needs q r before []).
  - cbn [substituteFirst]. rewrite (matchAt_needs q r before (c :: after)) by done.
    f_equal. apply IH; [done..|]. by apply Forall_cons in Hafter as [_ ?].
Qed.

(** A literal in front of the input is consumed as a whole. *)
Lemma matcher_Lit s : forall x t c,
  rest x = s ++ t -> matcher (Lit s) x c = c (advance x s t).
Proof.
  unfold Lit, Char. induction s as [|a s IH]; intros x t c Hx; cbn [app] in Hx.
  - cbn [map Cat matcher]. unfold advance. cbn [rev app]. by rewrite <- Hx, state_eta.
  - destruct s as [|b s].
    + cbn [map Cat]. rewrite matcher_CharSet, Hx. cbn [app]. by rewrite N.eqb_refl.
    + change (Cat (map _ (a :: b :: s)))
        with (Seq (CharSet (N.eqb a)) (Cat (map (fun c => CharSet (N.eqb c)) (b :: s)))).
      cbn [matcher]. rewrite Hx, N.eqb_refl.
      rewrite (IH _ t) by done. unfold advance. cbn [seen captures rev].
      by rewrite <- !app_assoc.
Qed.

(** An optional code unit: taken when it is there and the rest of the
    pattern then matches, passed over otherwise. *)
Lemma matcher_Opt_Char a x c :
  matcher (Opt (Char a)) x c =
    match rest x with
    | ch :: s =>
        if a =? ch
        then match c (mkState (ch :: seen x) s (captures x)) with
             | Some z => Some z
             | None => c x
             end
        else c x
    | [] => c x
    end.
Proof.
  unfold Opt, Char. cbn [matcher groups]. rewrite Nat.add_1_r, repeatMatcher_S.
  rewrite clearCaptures_nil.
  rewrite (bool_decide_eq_false_2 (Some 1%nat = Some 0%nat)) by done.
  rewrite (bool_decide_eq_false_2 (0%nat <> 0%nat)) by (intros H; by apply H).
  destruct (rest x) as [|ch s]; [done|]. destruct (a =? ch); [|done].
  rewrite (bool_decide_eq_true_2 (0%nat = 0%nat)) by done.
  rewrite bool_decide_eq_false_2 by (unfold endIndex; cbn; lia).
  cbn [andb Nat.add length]. rewrite repeatMatcher_S.
  by rewrite (bool_decide_eq_true_2 (decr (Some 1%nat) = Some 0%nat)).
Qed.

(** The first occurrence of a string pattern in front of the input. *)
Lemma replace_str_prefix pat s : Str.replace_str (pat ++ s) pat [] = s.
Proof.
  unfold Str.replace_str.
  assert (H : matchAt (Lit pat) [] (pat ++ s) = Some (advance (mkState [] (pat ++ s) []) pat s))
    by (unfold matchAt; by rewrite (matcher_Lit pat _ s)).
  destruct (pat ++ s) eqn:E; cbn [substituteFirst]; by rewrite H.
Qed.

Lemma isNonZeroDigit_isDigit c : isNonZeroDigit c = true -> isDigit c = true.
Proof.
  unfold isNonZeroDigit, isDigit, between. rewrite !andb_true_iff, !N.leb_le.
  cbn. lia.
Qed.

(** Closes [forall c, p c = true -> q c = true] when [q] is a disjunction
    with [p] in it, or [p] tests for one code unit of [q]. *)
Ltac class_within :=
  let c := fresh "c" in let H := fresh "H" in
  intros c H; cbv beta;
  first [ rewrite H, ?orb_true_r; reflexivity
        | apply N.eqb_eq in H; subst c; reflexivity ].

(** As [class_within], for the digits also from [[1-9]]. *)
Ltac class_in :=
  solve [ class_within | apply isNonZeroDigit_isDigit ].

(** Proves [guarantees q r n] for a pattern that is written out: each
    class counts when it lies inside [q]. *)
Ltac count_units :=
  lazymatch goal with
  | |- exists n1 n2, _ = (n1 + n2)%nat /\ _ /\ _ =>
      eexists _, _; split; [|split; [count_units|count_units]]; reflexivity
  | |- exists k, _ = (_ * k)%nat /\ _ =>
      eexists; split; [|count_units]; reflexivity
  | |- _ = 0%nat \/ _ =>
      first [ right; split; [reflexivity|class_in] | left; reflexivity ]
  | |- _ = 0%nat => reflexivity
  end.

(** Turns the class tests among the hypotheses into inequalities. *)
Ltac class_arith :=
  unfold isSeparator, isWhiteSpace, isDigit, isNonZeroDigit, isUpper, isLower, between in *;
  repeat match goal with
         | H : _ || _ = true |- _ => apply orb_true_iff in H; destruct H as [H|H]
         | H : _ && _ = true |- _ => apply andb_true_iff in H; destruct H
         | H : (_ <=? _) = true |- _ => apply N.leb_le in H
         | H : (_ =? _) = true |- _ => apply N.eqb_eq in H
         end;
  vm_compute chr in *; try lia.

(** The patterns of the script are well formed. *)
Lemma emailPattern_wf : wellFormed emailPattern = true.
Proof. reflexivity. Qed.
Lemma phonePattern_wf : wellFormed phonePattern = true.
Proof. reflexivity. Qed.
Lemma addressPattern_wf : wellFormed addressPattern = true.
Proof. reflexivity. Qed.
Lemma donationPattern_wf : wellFormed donationPattern = true.
Proof. reflexivity. Qed.

Lemma phonePattern_digits : guarantees isDigit phonePattern 12.
Proof. unfold phonePattern, Cat, Opt, Times, Char. cbn [guarantees]. count_units. Qed.

Lemma phonePattern_units : classesWithin isPhoneUnit phonePattern.
Proof.
  unfold phonePattern, Cat, Opt, Times, Char. cbn [classesWithin].
  repeat split; unfold isPhoneUnit; try class_within.
  intros c H. by rewrite (isNonZeroDigit_isDigit c H).
Qed.

Lemma donationPattern_units : classesWithin isAmountUnit donationPattern.
Proof.
  unfold donationPattern, Cat, Opt, Times, Star, Char. cbn [classesWithin].
  repeat split; unfold isAmountUnit; class_within.
Qed.

Lemma donationPattern_digits : guarantees isDigit donationPattern 1.
Proof.
  unfold donationPattern, Cat, Opt, Times, Star, Char. cbn [guarantees]. count_units.
Qed.

Lemma addressPattern_commas : guarantees (N.eqb (chr ",")) addressPattern 2.
Proof.
  unfold addressPattern, Cat, Opt, Times, Star, Plus, Char. cbn [guarantees]. count_units.
Qed.

Lemma addressPattern_digits : guarantees isDigit addressPattern 6.
Proof.
  unfold addressPattern, Cat, Opt, Times, Star, Plus, Char. cbn [guarantees]. count_units.
Qed.

(** Group 1 of a match of the script's name pattern holds two
    capitalised words. *)
Lemma namePattern_capture before after y :
  matchAt namePattern before after = Some y ->
  exists n, lookupCapture (captures y) 1 = Some n /\ Lang twoWords n.
Proof.
  assert (Hshape : namePattern = Seq WordBoundary (Seq (Group 1 twoWords) WordBoundary))
    by reflexivity.
  rewrite Hshape. unfold matchAt. cbn [matcher].
  destruct (xorb _ _); [|done]. intros H.
  apply (matcher_sound twoWords eq_refl) in H as (y' & s & H & Hseg & Hs). cbn beta in H.
  destruct (xorb _ _); [|done]. injection H as <-. cbn.
  exists s. rewrite bool_decide_eq_true_2 by done. by rewrite (segment_consumed _ _ _ Hseg).
Qed.

Lemma exec_namePattern_capture after : forall before r,
  exec namePattern before after = Some r ->
  exists n, group r 1 = Some n /\ Lang twoWords n.
Proof.
  induction after as [|c after IH]; intros before r; cbn [exec].
  - destruct (matchAt namePattern before []) as [y|] eqn:Hy; [|done].
    intros [= <-]. by apply namePattern_capture in Hy.
  - destruct (matchAt namePattern before (c :: after)) as [y|] eqn:Hy.
    + intros [= <-]. by apply namePattern_capture in Hy.
    + apply IH.
Qed.

Lemma twoWords_shape n :
  Lang twoWords n ->
  exists u1 l1 u2 l2,
    n = u1 :: l1 ++ SP :: u2 :: l2 /\
    isUpper u1 = true /\ l1 <> [] /\ Forall (fun c => isLower c = true) l1 /\
    isUpper u2 = true /\ l2 <> [] /\ Forall (fun c => isLower c = true) l2.
Proof.
  unfold twoWords, Cat, Plus. intros Hl. cbn [Lang] in Hl.
  change (exists s1 s2, n = s1 ++ s2 /\ (exists c, s1 = [c] /\ isUpper c = true) /\
    exists s3 s4, s2 = s3 ++ s4 /\ Lang (Quant (CharSet isLower) 1 None) s3 /\
    exists s5 s6, s4 = s5 ++ s6 /\ Lang (Char SP) s5 /\
    exists s7 s8, s6 = s7 ++ s8 /\ (exists c, s7 = [c] /\ isUpper c = true) /\
      Lang (Quant (CharSet isLower) 1 None) s8) in Hl.
  destruct Hl as (? & ? & -> & (u1 & -> & Hu1) & l1 & ? & -> & Hl1 & ? & ? & -> & Hsp
                  & ? & l2 & -> & (u2 & -> & Hu2) & Hl2).
  apply Lang_Char in Hsp as ->.
  apply Lang_class_run in Hl1 as (Hl1 & Hlen1 & _), Hl2 as (Hl2 & Hlen2 & _).
  exists u1, l1, u2, l2. split; [done|]. split; [done|].
  split; [by destruct l1; [cbn in Hlen1; lia|]|]. split; [done|]. split; [done|].
  split; [by destruct l2; [cbn in Hlen2; lia|]|]. done.
Qed.

(** ** [sanitizeUrl] *)

Lemma protocolPrefix_colon : guarantees (N.eqb (chr ":")) protocolPrefix 1.
Proof.
  unfold protocolPrefix, Lit, Opt, Char. cbn [js map Cat guarantees]. cbn [guarantees].
  count_units.
Qed.

Lemma trailingSlash_slash : guarantees (N.eqb (chr "/")) trailingSlash 1.
Proof. unfold trailingSlash, Char. cbn [guarantees]. count_units. Qed.

Lemma punctuation_free c :
  isPathPunctuation c = false ->
  (chr ":" =? c) = false /\ (chr "/" =? c) = false.
Proof.
  intros H. split.
  - destruct (N.eqb_spec (chr ":") c) as [<-|_]; [by vm_compute in H|done].
  - destruct (N.eqb_spec (chr "/") c) as [<-|_]; [by vm_compute in H|done].
Qed.

Lemma sanitizeUrl_units url :
  sanitizeUrl url =
    Str.replace (Str.replace url protocolPrefix []) trailingSlash []
      ≫= (fun c => if isPathPunctuation c then js "_" else [c]).
Proof. unfold sanitizeUrl, Str.replace_g, pathPunctuation. apply substitute_class. Qed.

Lemma bind_units (p : N -> bool) (x : N) (s : jsstring) :
  s ≫= (fun c => if p c then [x] else [c]) = map (fun c => if p c then x else c) s.
Proof.
  induction s as [|c s IH]; [done|]. rewrite bind_cons, IH. cbn [map]. by destruct (p c).
Qed.

(** X1.  [sanitizeUrl] removes the protocol and one trailing slash and
    then puts an underscore in the place of every slash, colon and dot
    that is left: nothing else is changed and nothing is dropped, so the
    name is as long as what the two removals left, and it holds no
    slash, no colon and no dot. *)
Theorem sanitizeUrl_has_no_punctuation (url : jsstring) :
  sanitizeUrl url =
    map (fun c => if isPathPunctuation c then chr "_" else c)
        (Str.replace (Str.replace url protocolPrefix []) trailingSlash []) /\
  length (sanitizeUrl url) =
    length (Str.replace (Str.replace url protocolPrefix []) trailingSlash []) /\
  Forall (fun c => isPathPunctuation c = false) (sanitizeUrl url).
Proof.
  assert (Hunits : sanitizeUrl url =
    map (fun c => if isPathPunctuation c then chr "_" else c)
        (Str.replace (Str.replace url protocolPrefix []) trailingSlash []))
    by (rewrite sanitizeUrl_units; apply bind_units).
  split; [done|]. split; [by rewrite Hunits, length_map|].
  rewrite Hunits. apply Forall_forall. intros c Hc.
  apply list_elem_of_fmap in Hc as (a & -> & _).
  by destruct (isPathPunctuation a) eqn:Ha.
Qed.

Lemma sanitizeUrl_fixed s :
  Forall (fun c => isPathPunctuation c = false) s -> sanitizeUrl s = s.
Proof.
  intros Hs. rewrite sanitizeUrl_units. unfold Str.replace.
  rewrite (substituteFirst_needs (N.eqb (chr ":")) protocolPrefix [] s []
             eq_refl protocolPrefix_colon)
    by (eapply Forall_impl; [exact Hs|]; intros c Hc; by apply punctuation_free in Hc as [? _]).
  rewrite (substituteFirst_needs (N.eqb (chr "/")) trailingSlash [] s []
             eq_refl trailingSlash_slash)
    by (eapply Forall_impl; [exact Hs|]; intros c Hc; by apply punctuation_free in Hc as [_ ?]).
  by apply bind_unchanged.
Qed.

(** X2.  Sanitizing a sanitized name changes nothing. *)
Theorem sanitizeUrl_idempotent (url : jsstring) :
  sanitizeUrl (sanitizeUrl url) = sanitizeUrl url.
Proof.
  apply sanitizeUrl_fixed.
  apply Forall_forall. intros c Hc. rewrite sanitizeUrl_units in Hc.
  apply list_elem_of_bind in Hc as (a & Hc & _).
  destruct (isPathPunctuation a) eqn:Ha.
  - apply list_elem_of_singleton in Hc as ->. reflexivity.
  - by apply list_elem_of_singleton in Hc as ->.
Qed.

Lemma matchAt_protocolPrefix (secure : bool) u :
  exists y,
    matchAt protocolPrefix [] (js "http" ++ (if secure then js "s" else []) ++ js "://" ++ u)
      = Some y /\ rest y = u.
Proof.
  unfold matchAt, protocolPrefix. cbn [Cat matcher seen].
  rewrite (matcher_Lit (js "http") _ ((if secure then js "s" else []) ++ js "://" ++ u))
    by done.
  rewrite matcher_Opt_Char. unfold advance. cbn [rest seen captures].
  destruct secure.
  - change (js "s" ++ js "://" ++ u) with (chr "s" :: js "://" ++ u).
    cbv iota beta. rewrite N.eqb_refl. rewrite (matcher_Lit (js "://") _ u) by done.
    eexists. split; [reflexivity|done].
  - change ([] ++ js "://" ++ u) with (chr ":" :: js "//" ++ u).
    cbv iota beta. change (chr "s" =? chr ":") with false. cbv iota.
    rewrite (matcher_Lit (js "://") _ u) by done.
    eexists. split; [reflexivity|done].
Qed.

(** X3.  The http and the https form of an address get the same name, so
    the runs on the two use the same data directory. *)
Theorem sanitizeUrl_ignores_protocol (u : jsstring) :
  sanitizeUrl (js "http://" ++ u) = sanitizeUrl (js "https://" ++ u).
Proof.
  assert (H : forall secure : bool,
    Str.replace (js "http" ++ (if secure then js "s" else []) ++ js "://" ++ u)
                protocolPrefix [] = u).
  { intros secure. unfold Str.replace.
    destruct (matchAt_protocolPrefix secure u) as (y & Hy & Hrest).
    destruct (js "http" ++ _) eqn:E; cbn [substituteFirst]; by rewrite Hy. }
  unfold sanitizeUrl. cbv zeta.
  change (js "http://" ++ u) with (js "http" ++ (if false then js "s" else []) ++ js "://" ++ u).
  change (js "https://" ++ u) with (js "http" ++ (if true then js "s" else []) ++ js "://" ++ u).
  by rewrite !H.
Qed.

(** ** [downloadPDF] and [extractPDFText] *)

Section Helpers.
Variable w : World.


(** X5.  [extractPDFText] never rejects and writes no file.  On stdout
    it prints what the parser prints for the file, and nothing when the
    file is missing.  A text that is not empty is what the parser read
    from the file as it is at the call, and then stderr has no new line;
    a missing file gives the empty text and the line
    "Failed to extract text from PDF: <message>" on stderr. *)
Theorem extractPDFText_never_rejects (filePath : jsstring) (s : Effects) :
  exists s' pdfText,
    extractPDFText w filePath s = (s', inr pdfText) /\
    files s' = files s /\ dirs s' = dirs s /\ browserClosed s' = browserClosed s /\
    stdout s' = stdout s ++ match files s !! filePath with
                            | Some buffer => map Plain (pdfLog w buffer)
                            | None => []
                            end /\
    (pdfText <> [] ->
       stderr s' = stderr s /\
       exists buffer, files s !! filePath = Some buffer /\ pdf w buffer = inr pdfText) /\
    (files s !! filePath = None ->
       pdfText = [] /\
       exists e, stderr s' = stderr s ++
                   [Plain (js "Failed to extract text from PDF: " ++ e)]).
Proof.
  assert (Hline : forall e : Error,
    consoleFormat w [js "Failed to extract text from PDF:"; e] =
      js "Failed to extract text from PDF: " ++ e).
  { intros e. unfold Error. rewrite consoleFormat_free by percent_free. reflexivity. }
  unfold extractPDFText, tryCatch, bind, readFileSync, logLines, await, consoleError, ret.
  destruct (files s !! filePath) as [buffer|] eqn:Hfile.
  - cbn [files dirs stdout stderr browserClosed].
    destruct (pdf w buffer) as [e|pdfText] eqn:Hpdf.
    + eexists _, []. split; [reflexivity|]. cbn. repeat split; try done.
    + eexists _, pdfText. split; [reflexivity|]. cbn. repeat split; try done. eauto.
  - eexists _, []. split; [reflexivity|]. cbn [files dirs stdout stderr browserClosed].
    rewrite app_nil_r, Hline. repeat split; try done. eauto.
Qed.

(** X6.  After a download that resolved to true, [extractPDFText] on the
    same path parses what was just downloaded, whatever the path held
    before, gives the empty text when the parser throws, and leaves the
    files as they are. *)
Theorem download_then_extract (pdfUrl outputPath : jsstring) (s s1 : Effects) :
  downloadPDF w pdfUrl outputPath s = (s1, inr true) ->
  exists pdfContent s2,
    downloaded w pdfUrl = Some pdfContent /\
    files s1 !! outputPath = Some (Plain pdfContent) /\
    extractPDFText w outputPath s1 =
      (s2, inr (match pdf w (Plain pdfContent) with inr pdfText => pdfText | inl _ => [] end)) /\
    files s2 = files s1.
Proof.
  unfold downloadPDF, downloaded, extractPDFText, tryCatch, bind, await, readFileSync,
    writeFileSync, logLines.
  destruct (goto w pdfUrl) as [e|document]; [done|].
  destruct (innerHTML document) as [e|pdfContent]; [done|].
  destruct (saveError w pdfUrl) as [e|]; [done|].
  cbn. intros [= <-]. cbn [files]. exists pdfContent. rewrite lookup_insert_eq.
  cbn [files dirs stdout stderr browserClosed].
  destruct (pdf w (Plain pdfContent)) as [e|pdfText]; eexists; (split; [done|]);
    (split; [done|]); (split; [reflexivity|done]).
Qed.

End Helpers.

(** The report of [reportWorld], saved and read back. *)
Lemma download_then_extract_witness :
  exists pdfContent s2,
    downloaded reportWorld (js "https://example.org/report.pdf") = Some pdfContent /\
    files (downloadPDF reportWorld (js "https://example.org/report.pdf")
             (js "/srv/scripts/data/report.pdf") noEffects).1
      !! js "/srv/scripts/data/report.pdf" = Some (Plain pdfContent) /\
    extractPDFText reportWorld (js "/srv/scripts/data/report.pdf")
        (downloadPDF reportWorld (js "https://example.org/report.pdf")
           (js "/srv/scripts/data/report.pdf") noEffects).1 =
      (s2, inr (match pdf reportWorld (Plain pdfContent) with
                | inr pdfText => pdfText
                | inl _ => []
                end)) /\
    files s2 = files (downloadPDF reportWorld (js "https://example.org/report.pdf")
                        (js "/srv/scripts/data/report.pdf") noEffects).1.
Proof.
  apply (download_then_extract reportWorld (js "https://example.org/report.pdf")
           (js "/srv/scripts/data/report.pdf") noEffects).
  vm_compute. reflexivity.
Defined.

(** ** The run as a whole *)

Lemma run_cases w :
  (exists e, goto w (argv2 w) = inl e /\
     main w noEffects =
       (mkEffects ∅ [] [navigating w] [navigationFailure w e; browserClosedLine] true,
        inr tt)) \/
  (exists document, goto w (argv2 w) = inr document /\ innerText document = [] /\
     main w noEffects =
       (mkEffects ∅ [] [navigating w] [emptyPageLine w; browserClosedLine] true, inr tt)) \/
  (exists document, goto w (argv2 w) = inr document /\ innerText document <> [] /\
     main w noEffects =
       (mkEffects (<[dataPath w := Stringify (dataOf w document) 2]>
                     (foldl (saved w) ∅ (Entities.uniquePdfLinks document)))
                  [directoryOf w]
                  (navigating w :: (Entities.uniquePdfLinks document ≫= chatter w)
                     ++ [Stringify (dataOf w document) 0])
                  ((Entities.uniquePdfLinks document ≫= complaints w) ++ [browserClosedLine])
                  true,
        inr tt)).
Proof.
  destruct (goto w (argv2 w)) as [e|document] eqn:Hgoto.
  - left. exists e. split; [done|]. by apply main_navigation_effects.
  - right. destruct (decide (innerText document = [])) as [Hempty|Hne].
    + left. exists document. split; [done|]. split; [done|]. by apply (main_empty w document).
    + right. exists document. split; [done|]. split; [done|]. by apply (main_effects w document).
Qed.

(** X7.  Whatever the browser and the parser answer, the asynchronous
    function returns without an exception, the browser has been closed,
    the last line on stderr is "Browser closed." and the first line on
    stdout is the "Navigating to URL" line. *)
Theorem run_always_closes_browser (w : World) :
  exists s,
    main w noEffects = (s, inr tt) /\ browserClosed s = true /\
    (exists earlier, stderr s = earlier ++ [browserClosedLine]) /\
    (exists more, stdout s = navigating w :: more).
Proof.
  destruct (run_cases w) as [(e & _ & ->)|[(document & _ & _ & ->)|(document & _ & _ & ->)]];
    eexists; (split; [reflexivity|]); cbn [browserClosed stderr stdout];
    (split; [done|]); split; eauto.
  all: by eexists [_].
Qed.



(** X9.  When the page of the run cannot be loaded, the run writes no
    file, makes no directory, prints no record, reports the failure on
    stderr and closes the browser.  The report is what [console.error]
    prints for "Error processing URL <url>:" and the message: it starts
    with "Error processing URL ", and for a URL without "%" it reads
    "Error processing URL <url>: <message>". *)
Theorem navigation_failure_aborts (w : World) (e : Error) :
  goto w (argv2 w) = inl e ->
  exists report,
    Script.run w =
      mkEffects ∅ [] [navigating w] [Plain report; browserClosedLine] true /\
    report = consoleFormat w [js "Error processing URL " ++ argv2 w ++ js ":"; e] /\
    Str.startsWith report (js "Error processing URL ") = true /\
    (percentFree (argv2 w) ->
     report = js "Error processing URL " ++ argv2 w ++ js ": " ++ e).
Proof.
  intros Hgoto. unfold Script.run. rewrite (main_navigation_effects w e Hgoto).
  eexists. split; [reflexivity|]. split; [reflexivity|]. unfold Error. split.
  - destruct (consoleFormat_prefix w (js "Error processing URL ") (argv2 w ++ js ":") e)
      as (tail & ->); [percent_free|].
    apply startsWith_app.
  - intros Hfree. rewrite consoleFormat_free.
    + by rewrite <- !app_assoc.
    + rewrite !percentFree_app. split; [percent_free|]. split; [done|percent_free].
Qed.

(** A site whose address does not resolve. *)
Lemma navigation_failure_aborts_witness :
  Script.run unreachableWorld =
    mkEffects ∅ [] [Plain (js "Navigating to URL: https://example.org/donors")]
              [Plain (js "Error processing URL https://example.org/donors: net::ERR_NAME_NOT_RESOLVED");
               Plain (js "Browser closed.")] true.
Proof.
  destruct (navigation_failure_aborts unreachableWorld (js "net::ERR_NAME_NOT_RESOLVED")
              ltac:(vm_compute; reflexivity)) as (report & -> & _ & _ & Hplain).
  rewrite (Hplain ltac:(percent_free)). reflexivity.
Defined.








Lemma pdfData_urls w links :
  NoDup links ->
  NoDup (map url (omap (pdfRecordOf w) links)) /\
  forall u, u ∈ map url (omap (pdfRecordOf w) links) -> u ∈ links.
Proof.
  induction 1 as [|pdfUrl links Hnot Hnd [IH1 IH2]].
  - split; [constructor|]. intros u Hu. by apply elem_of_nil in Hu.
  - cbn [omap list_omap]. destruct (pdfRecordOf w pdfUrl) as [rec|] eqn:Hrec.
    + apply pdfRecordOf_Some in Hrec as (Hurl & _). cbn [map]. rewrite Hurl. split.
      * constructor; [|done]. intros Hin. by apply Hnot, IH2.
      * intros u. rewrite !elem_of_cons. intros [->|Hu]; [by left|right; by apply IH2].
    + split; [done|]. intros u Hu. rewrite elem_of_cons. right. by apply IH2.
Qed.

(** X13.  A printed record has a raw text that is not empty, no
    duplicate in Emails, Phones, Addresses, Donations and PDFLinks, and
    at most one entry of PDFData for a URL, each for a link of
    PDFLinks. *)
Theorem printed_record_has_no_duplicates (w : World) (d : ResultRecord) :
  d ∈ printed w ->
  RawText d <> [] /\
  NoDup (Emails d) /\ NoDup (Phones d) /\ NoDup (Addresses d) /\ NoDup (Donations d) /\
  NoDup (PDFLinks d) /\ NoDup (map url (PDFData d)) /\
  forall u, u ∈ map url (PDFData d) -> u ∈ PDFLinks d.
Proof.
  intros Hd. apply printed_cases in Hd as (document & _ & Htext & ->).
  unfold dataOf. cbn [RawText Emails Phones Addresses Donations PDFLinks PDFData].
  split; [done|]. repeat (split; [apply ofArray_NoDup|]).
  apply pdfData_urls, ofArray_NoDup.
Qed.

(** The record of the page with three links. *)
Lemma printed_record_has_no_duplicates_witness :
  RawText (dataOf threeLinks threeLinksDocument) <> [] /\
  NoDup (Emails (dataOf threeLinks threeLinksDocument)) /\
  NoDup (Phones (dataOf threeLinks threeLinksDocument)) /\
  NoDup (Addresses (dataOf threeLinks threeLinksDocument)) /\
  NoDup (Donations (dataOf threeLinks threeLinksDocument)) /\
  NoDup (PDFLinks (dataOf threeLinks threeLinksDocument)) /\
  NoDup (map url (PDFData (dataOf threeLinks threeLinksDocument))) /\
  forall u, u ∈ map url (PDFData (dataOf threeLinks threeLinksDocument)) ->
            u ∈ PDFLinks (dataOf threeLinks threeLinksDocument).
Proof.
  apply (printed_record_has_no_duplicates threeLinks).
  assert (Hp : printed threeLinks = [dataOf threeLinks threeLinksDocument])
    by (vm_compute; reflexivity).
  rewrite Hp. apply list_elem_of_here.
Defined.

(** ** The entities *)

(** X14.  Every match of the email pattern is a substring of the text of
    the form local part, "@", domain, ".", top-level part: the local part
    and the domain are not empty and stay inside their classes, the
    top-level part has two to seven letters. *)
Theorem email_matches_shape (text m : jsstring) :
  m ∈ orEmpty (Str.match_g text emailPattern) ->
  substring m text /\
  exists localPart domain tld,
    m = localPart ++ chr "@" :: domain ++ chr "." :: tld /\
    localPart <> [] /\ Forall (fun c => isLocalPart c = true) localPart /\
    domain <> [] /\ Forall (fun c => isDomain c = true) domain /\
    (2 <= length tld <= 7)%nat /\ Forall (fun c => isLetter c = true) tld.
Proof.
  intros Hm. apply (match_g_sound _ _ _ emailPattern_wf) in Hm as [Hl Hsub].
  split; [done|]. unfold emailPattern, Cat, Plus in Hl. cbn [Lang] in Hl.
  change (exists s1 s2, m = s1 ++ s2 /\ Lang (Quant (CharSet isLocalPart) 1 None) s1 /\
    exists s3 s4, s2 = s3 ++ s4 /\ Lang (Char (chr "@")) s3 /\
    exists s5 s6, s4 = s5 ++ s6 /\ Lang (Quant (CharSet isDomain) 1 None) s5 /\
    exists s7 s8, s6 = s7 ++ s8 /\ Lang (Char (chr ".")) s7 /\
      Lang (Quant (CharSet isLetter) 2 (Some 7%nat)) s8) in Hl.
  destruct Hl as (l & ? & -> & Hl & at' & ? & -> & Hat & d & ? & -> & Hd & dot & t & -> & Hdot & Ht).
  apply Lang_Char in Hat as ->. apply Lang_Char in Hdot as ->.
  apply Lang_class_run in Hl as (Hl & Hlen & _), Hd as (Hd & Hdlen & _), Ht as (Ht & Htmin & Htmax).
  exists l, d, t. split; [done|]. split; [by destruct l; [cbn in Hlen; lia|]|].
  split; [done|]. split; [by destruct d; [cbn in Hdlen; lia|]|]. done.
Qed.

(** The first email of [repeated]. *)
Lemma email_matches_shape_witness :
  substring (js "a@b.org") repeated /\
  exists localPart domain tld,
    js "a@b.org" = localPart ++ chr "@" :: domain ++ chr "." :: tld /\
    localPart <> [] /\ Forall (fun c => isLocalPart c = true) localPart /\
    domain <> [] /\ Forall (fun c => isDomain c = true) domain /\
    (2 <= length tld <= 7)%nat /\ Forall (fun c => isLetter c = true) tld.
Proof.
  apply (email_matches_shape repeated (js "a@b.org")).
  vm_compute. apply list_elem_of_here.
Defined.

(** X15.  What follows "mailto:" in the address of a mailto link is
    reported among the Emails after trimming, whether or not it matches
    the email pattern. *)
Theorem mailto_links_are_reported_unchecked (document : Document) (a : Anchor)
    (address pageText : jsstring) :
  a ∈ anchors document ->
  Str.startsWith (hrefAttribute a) (js "mailto:") = true ->
  href a = js "mailto:" ++ address ->
  Str.trim address ∈ Entities.uniqueEmails pageText (Entities.emailLinks document).
Proof.
  intros Ha Hattr Hhref. unfold Entities.uniqueEmails, Entities.emails.
  rewrite ofArray_elem, elem_of_app. right. unfold Entities.emailLinks.
  apply list_elem_of_fmap. exists a. split.
  - by rewrite Hhref, replace_str_prefix.
  - apply list_elem_of_filter. split; [by rewrite Hattr|done].
Qed.

(** A link to "mailto:office": "office" is reported, and the email
    pattern does not match it. *)
Lemma mailto_links_are_reported_unchecked_witness :
  Str.trim (js "office") ∈
    Entities.uniqueEmails (js "Contact us") (Entities.emailLinks contactDocument) /\
  orEmpty (Str.match_g (js "office") emailPattern) = [].
Proof.
  split.
  - apply (mailto_links_are_reported_unchecked contactDocument (link "mailto:office")).
    + vm_compute. apply list_elem_of_here.
    + vm_compute. reflexivity.
    + vm_compute. reflexivity.
  - vm_compute. reflexivity.
Defined.

(** X16.  Every match of the phone pattern is a substring of the text
    with at least twelve digits, made of digits, "+", parentheses, dashes,
    dots and white space only. *)
Theorem phone_matches_have_twelve_digits (text m : jsstring) :
  m ∈ Entities.phones text ->
  substring m text /\
  (12 <= length (List.filter isDigit m))%nat /\
  Forall (fun c => isPhoneUnit c = true) m.
Proof.
  intros Hm. apply (match_g_sound _ _ _ phonePattern_wf) in Hm as [Hl Hsub].
  split; [done|]. split.
  - by apply (Lang_guarantees isDigit phonePattern _ _ phonePattern_digits).
  - by apply (Lang_within isPhoneUnit phonePattern phonePattern_units).
Qed.

(** The first phone of [repeated]. *)
Lemma phone_matches_have_twelve_digits_witness :
  substring (js "12 555-123-4567") repeated /\
  (12 <= length (List.filter isDigit (js "12 555-123-4567")))%nat /\
  Forall (fun c => isPhoneUnit c = true) (js "12 555-123-4567").
Proof.
  apply (phone_matches_have_twelve_digits repeated (js "12 555-123-4567")).
  vm_compute. apply list_elem_of_here.
Defined.

Lemma filter_elem (q : N -> bool) (s : jsstring) c : In c (List.filter q s) -> In c s.
Proof. rewrite List.filter_In. tauto. Qed.

Lemma cleanPhone_units m c :
  c ∈ Entities.cleanPhone m -> c = SP \/ (c ∈ m /\ isSeparator c = false).
Proof.
  intros Hc. destruct (isSeparator c) eqn:Hsep.
  - left. apply (squeezed_separators (Entities.cleanPhone m)); [|done..].
    rewrite cleanPhone_squeeze. apply squeezed_trim, squeezed_squeeze.
  - right. split; [|done]. apply list_elem_of_In.
    apply (filter_elem keptByCleaning). rewrite <- kept_cleanPhone.
    apply List.filter_In. split; [by apply list_elem_of_In|].
    unfold keptByCleaning. by rewrite Hsep.
Qed.

Lemma digit_kept c : isDigit c = true -> isSeparator c = false.
Proof.
  intros Hd. destruct (isSeparator c) eqn:Hsep; [exfalso|done]. class_arith.
Qed.

Lemma digits_kept s :
  List.filter isDigit (List.filter keptByCleaning s) = List.filter isDigit s.
Proof.
  induction s as [|c s IH]; [done|]. cbn [List.filter].
  unfold keptByCleaning at 1. destruct (isSeparator c) eqn:Hsep; cbn [negb List.filter].
  - destruct (isDigit c) eqn:Hd; [|done]. apply digit_kept in Hd. congruence.
  - by rewrite IH.
Qed.

(** X17.  Every element of Phones is a cleaned match of the phone
    pattern: it has at least twelve digits, is made of digits, "+",
    parentheses and spaces only, has no two spaces in a row and no white
    space at either end. *)
Theorem cleaned_phones_normal_form (text p : jsstring) :
  p ∈ Entities.uniquePhones text ->
  (exists m, m ∈ Entities.phones text /\ p = Entities.cleanPhone m) /\
  (12 <= length (List.filter isDigit p))%nat /\
  Forall (fun c => isCleanPhoneUnit c = true) p /\
  squeezed p = true /\ startsWithSpace p = false /\ endsWithSpace p = false.
Proof.
  unfold Entities.uniquePhones, Entities.cleanedPhones. rewrite ofArray_elem.
  intros Hp. apply list_elem_of_fmap in Hp as (m & -> & Hm).
  split; [by exists m|].
  apply (match_g_sound _ _ _ phonePattern_wf) in Hm as [Hl _].
  split; [|split; [|split; [|split]]].
  - rewrite <- digits_kept, kept_cleanPhone, digits_kept.
    by apply (Lang_guarantees isDigit phonePattern _ _ phonePattern_digits).
  - apply Forall_forall. intros c Hc. apply cleanPhone_units in Hc as [->|[Hc Hsep]]; [done|].
    assert (Hu := Lang_within isPhoneUnit phonePattern phonePattern_units _ Hl).
    rewrite Forall_forall in Hu. specialize (Hu c Hc). unfold isPhoneUnit in Hu.
    rewrite Hsep, orb_false_r in Hu. unfold isCleanPhoneUnit. by rewrite Hu.
  - rewrite cleanPhone_squeeze. apply squeezed_trim, squeezed_squeeze.
  - unfold Entities.cleanPhone, Str.trim. apply trimEnd_starts, trimStart_starts.
  - unfold endsWithSpace, Entities.cleanPhone, Str.trim, Str.trimEnd.
    rewrite rev_involutive. apply trimStart_starts.
Qed.

(** The first phone of [repeated], cleaned. *)
Lemma cleaned_phones_normal_form_witness :
  (exists m, m ∈ Entities.phones repeated /\ js "12 555 123 4567" = Entities.cleanPhone m) /\
  (12 <= length (List.filter isDigit (js "12 555 123 4567")))%nat /\
  Forall (fun c => isCleanPhoneUnit c = true) (js "12 555 123 4567") /\
  squeezed (js "12 555 123 4567") = true /\
  startsWithSpace (js "12 555 123 4567") = false /\
  endsWithSpace (js "12 555 123 4567") = false.
Proof.
  apply (cleaned_phones_normal_form repeated (js "12 555 123 4567")).
  vm_compute. apply list_elem_of_here.
Defined.

Lemma digits_app (a b : jsstring) :
  length (List.filter isDigit (a ++ b)) =
    (length (List.filter isDigit a) + length (List.filter isDigit b))%nat.
Proof. by rewrite List.filter_app, length_app. Qed.

(** X24.  A string with fewer than twelve digits has no match of the
    phone pattern: as a page text it gives no Phones, as a line of the
    donor loop it gives no phone. *)
Theorem no_phone_without_twelve_digits (text : jsstring) :
  (length (List.filter isDigit text) < 12)%nat ->
  Entities.phones text = [] /\ Entities.uniquePhones text = [] /\
  Donor.phoneMatches phonePattern text = [].
Proof.
  intros Hfew.
  assert (Hnone : Entities.phones text = []).
  { destruct (Entities.phones text) as [|m ms] eqn:Hms; [done|]. exfalso.
    assert (Hm : m ∈ Entities.phones text) by (rewrite Hms; apply list_elem_of_here).
    apply (match_g_sound _ _ _ phonePattern_wf) in Hm as [Hl (pre & post & Hsub)].
    apply (Lang_guarantees isDigit phonePattern _ _ phonePattern_digits) in Hl.
    rewrite Hsub, !digits_app in Hfew. lia. }
  split; [done|]. split.
  - unfold Entities.uniquePhones, Entities.cleanedPhones. by rewrite Hnone.
  - unfold Donor.phoneMatches. unfold Entities.phones in Hnone. by rewrite Hnone.
Qed.

(** A ten-digit number in the usual American spelling. *)
Lemma no_phone_without_twelve_digits_witness :
  Entities.phones tenDigits = [] /\ Entities.uniquePhones tenDigits = [] /\
  Donor.phoneMatches phonePattern tenDigits = [].
Proof.
  apply (no_phone_without_twelve_digits tenDigits). vm_compute. lia.
Defined.

(** X18.  Every match of the address pattern is a substring of the text
    with at least sixteen code units, two commas and six digits. *)
Theorem address_matches_shape (text m : jsstring) :
  m ∈ Entities.addresses text ->
  substring m text /\ (16 <= length m)%nat /\
  (2 <= length (List.filter (N.eqb (chr ",")) m))%nat /\
  (6 <= length (List.filter isDigit m))%nat.
Proof.
  intros Hm. apply (match_g_sound _ _ _ addressPattern_wf) in Hm as [Hl Hsub].
  split; [done|]. split; [exact (Lang_minLength addressPattern m Hl)|]. split.
  - exact (Lang_guarantees _ addressPattern _ _ addressPattern_commas Hl).
  - exact (Lang_guarantees _ addressPattern _ _ addressPattern_digits Hl).
Qed.

(** The address of [addressText]. *)
Lemma address_matches_shape_witness :
  substring (js "123 Main Street, Springfield, IL 62704") addressText /\
  (16 <= length (js "123 Main Street, Springfield, IL 62704"))%nat /\
  (2 <= length (List.filter (N.eqb (chr ","))
                  (js "123 Main Street, Springfield, IL 62704")))%nat /\
  (6 <= length (List.filter isDigit (js "123 Main Street, Springfield, IL 62704")))%nat.
Proof.
  apply (address_matches_shape addressText (js "123 Main Street, Springfield, IL 62704")).
  vm_compute. apply list_elem_of_here.
Defined.

(** X19.  Every match of the donation pattern is a substring of the text
    made of digits, "$", "," and "." only, with at least one digit. *)
Theorem donation_matches_shape (text m : jsstring) :
  m ∈ Entities.donations text ->
  substring m text /\
  (1 <= length (List.filter isDigit m))%nat /\
  Forall (fun c => isAmountUnit c = true) m.
Proof.
  intros Hm. apply (match_g_sound _ _ _ donationPattern_wf) in Hm as [Hl Hsub].
  split; [done|]. split.
  - by apply (Lang_guarantees isDigit donationPattern _ _ donationPattern_digits).
  - by apply (Lang_within isAmountUnit donationPattern donationPattern_units).
Qed.

(** The amount of the example page. *)
Lemma donation_matches_shape_witness :
  substring (js "$1,250.00") examplePage /\
  (1 <= length (List.filter isDigit (js "$1,250.00")))%nat /\
  Forall (fun c => isAmountUnit c = true) (js "$1,250.00").
Proof.
  apply (donation_matches_shape examplePage (js "$1,250.00")).
  vm_compute. do 4 apply list_elem_of_further. apply list_elem_of_here.
Defined.

(** ** The lines and the profiles of the donor loop *)

Lemma elem_of_rev (s : jsstring) c : c ∈ rev s <-> c ∈ s.
Proof. by rewrite !list_elem_of_In, <- in_rev. Qed.

Lemma matchAt_lineBreak_LF before after :
  matchAt lineBreak before (LF :: after) <> None.
Proof.
  unfold matchAt, lineBreak. cbn [matcher]. rewrite matcher_Opt_Char. cbn [rest].
  change (CR =? LF) with false. cbv iota. unfold Char. rewrite matcher_CharSet. cbn [rest].
  by rewrite N.eqb_refl.
Qed.

Lemma cut_lineBreak_LF after : forall before cur skip piece,
  LF ∉ cur -> piece ∈ cut lineBreak before cur after skip -> LF ∉ piece.
Proof.
  induction after as [|c after IH]; intros before cur skip piece Hcur.
  - destruct skip; cbn [cut]; rewrite list_elem_of_singleton; intros ->;
      by rewrite elem_of_rev.
  - destruct skip as [|n]; cbn [cut]; [|by apply IH].
    destruct (matchAt lineBreak before (c :: after)) as [y|] eqn:Hy.
    + destruct (matchAt_sound _ _ _ _ (eq_refl : wellFormed lineBreak = true) Hy)
        as (_ & _ & Hl).
      apply Lang_minLength in Hl. cbn in Hl.
      destruct (length (matched before y)) as [|n]; [lia|].
      rewrite elem_of_cons. intros [->|Hp]; [by rewrite elem_of_rev|].
      revert Hp. apply IH. apply not_elem_of_nil.
    + apply IH. rewrite not_elem_of_cons. split; [|done].
      intros <-. by apply (matchAt_lineBreak_LF before after).
Qed.

Lemma trim_elem s c : c ∈ Str.trim s -> c ∈ s.
Proof.
  unfold Str.trim. intros Hc.
  destruct (trimStart_suffix s) as (ws & Hws & _).
  destruct (trimEnd_prefix (Str.trimStart s)) as (ws' & Hws' & _).
  rewrite Hws, Hws', !elem_of_app. tauto.
Qed.

(** X20.  Every line the donor loop scans is not empty, has no white
    space at either end and contains no line feed. *)
Theorem lines_are_trimmed_and_nonempty (pageText l : jsstring) :
  l ∈ Donor.linesOf pageText ->
  l <> [] /\ startsWithSpace l = false /\ endsWithSpace l = false /\ LF ∉ l.
Proof.
  unfold Donor.linesOf. rewrite list_elem_of_filter, list_elem_of_fmap.
  intros [Hl (piece & -> & Hpiece)].
  split; [by destruct (Str.trim piece)|]. split; [|split].
  - unfold Str.trim. apply trimEnd_starts, trimStart_starts.
  - unfold endsWithSpace, Str.trim, Str.trimEnd. rewrite rev_involutive.
    apply trimStart_starts.
  - intros Hc. apply trim_elem in Hc. revert Hc. unfold Str.split in Hpiece.
    destruct pageText as [|c t].
    + destruct (matchAt lineBreak [] []); [by apply elem_of_nil in Hpiece|].
      apply list_elem_of_singleton in Hpiece as ->. apply not_elem_of_nil.
    + revert Hpiece. apply cut_lineBreak_LF, not_elem_of_nil.
Qed.

(** The third line of [neighbours]. *)
Lemma lines_are_trimmed_and_nonempty_witness :
  js "Jane Doe" <> [] /\ startsWithSpace (js "Jane Doe") = false /\
  endsWithSpace (js "Jane Doe") = false /\ LF ∉ js "Jane Doe".
Proof.
  apply (lines_are_trimmed_and_nonempty neighbours (js "Jane Doe")).
  vm_compute. do 2 apply list_elem_of_further. apply list_elem_of_here.
Defined.

Section Sourced.
Variables np ep pp : regex.

Lemma window_sourced lines lo hi st s' :
  forUpTo lo hi (scanLine ep pp lines) (mkScan [] [] st) = inr s' ->
  (forall x, x ∈ emailsFound s' ->
     exists k l, (lo <= k <= hi)%Z /\ item lines k = Some l /\ x ∈ emailMatches ep l) /\
  (forall x, x ∈ phonesFound s' ->
     exists k l, (lo <= k <= hi)%Z /\ item lines k = Some l /\ x ∈ phoneMatches pp l).
Proof.
  intros Hrun. unfold forUpTo in Hrun.
  pose (I := fun (j : Z) (s : Scan) =>
    (forall x, x ∈ emailsFound s ->
       exists k l, (lo <= k < j)%Z /\ item lines k = Some l /\ x ∈ emailMatches ep l) /\
    (forall x, x ∈ phonesFound s ->
       exists k l, (lo <= k < j)%Z /\ item lines k = Some l /\ x ∈ phoneMatches pp l)).
  assert (H0 : I lo (mkScan [] [] st)).
  { split; intros x Hx; by apply elem_of_nil in Hx. }
  apply (forFrom_rule I _ _ _ _ _ H0) in Hrun.
  - destruct Hrun as [He Hp].
    split; intros x Hx; [destruct (He x Hx) as (k & l & Hk & Hl)
                        |destruct (Hp x Hx) as (k & l & Hk & Hl)];
      exists k, l; (split; [lia|done]).
  - clear Hrun s' H0. intros k t t' Hk [He Hp] Hbody.
    unfold scanLine in Hbody. destruct (item lines k) as [l|] eqn:Hl; [|done].
    injection Hbody as <-. cbv zeta. rewrite !foldl_claim_fresh.
    cbn [emailsFound phonesFound fst].
    unfold I. cbn [emailsFound phonesFound].
    split; intros x; rewrite elem_of_app, fresh_elem; intros [Hx|[Hx _]].
    + destruct (He x Hx) as (k' & l' & Hk' & Hl'). exists k', l'. split; [lia|done].
    + exists k, l. split; [lia|done].
    + destruct (Hp x Hx) as (k' & l' & Hk' & Hl'). exists k', l'. split; [lia|done].
    + exists k, l. split; [lia|done].
Qed.

Lemma step_sourced lines i st st' :
  step np ep pp lines i st = inr st' ->
  donorProfiles st' = donorProfiles st \/
  exists p, donorProfiles st' = donorProfiles st ++ [p] /\ sourced np ep pp lines p.
Proof.
  unfold step. destruct (item lines i) as [line|] eqn:Hline; [|done].
  destruct (Str.match_ line np) as [r|] eqn:Hr; [|intros [= <-]; by left].
  destruct (forUpTo _ _ _ _) as [e|s] eqn:Hw; [done|].
  assert (Hd : donorProfiles (outer s) = donorProfiles st)
    by (by apply window_spec in Hw as (_ & _ & _ & _ & Hd)).
  apply window_sourced in Hw as [He Hp].
  destruct (_ || _); [|intros [= <-]; by left].
  destruct (group r 1) as [n|] eqn:Hn; [|done].
  case_bool_decide; intros [= <-]; [|by left].
  right. cbn [donorProfiles]. rewrite Hd. eexists. split; [reflexivity|].
  exists i, r. cbn [name emails phones]. unfold nameMatchAt. rewrite Hline. cbn. done.
Qed.

Lemma run_sourced lines count j st st' :
  Forall (sourced np ep pp lines) (donorProfiles st) ->
  forFrom j count (step np ep pp lines) st = inr st' ->
  Forall (sourced np ep pp lines) (donorProfiles st').
Proof.
  intros Hst Hrun.
  apply (forFrom_rule (fun _ s => Forall (sourced np ep pp lines) (donorProfiles s))
           _ _ _ _ _ Hst) in Hrun; [done|].
  intros k t t' _ Ht Hstep. apply step_sourced in Hstep as [->|(p & -> & Hp)]; [done|].
  apply Forall_app. split; [done|]. by apply Forall_singleton.
Qed.

End Sourced.

(** X21.  The name of every profile is two capitalised words: an upper
    case letter, one or more lower case letters, a space, an upper case
    letter, one or more lower case letters. *)
Theorem donor_names_are_two_capitalised_words (pageText : jsstring) (p : DonorProfile) :
  p ∈ donorsOf pageText ->
  exists u1 l1 u2 l2,
    name p = u1 :: l1 ++ SP :: u2 :: l2 /\
    isUpper u1 = true /\ l1 <> [] /\ Forall (fun c => isLower c = true) l1 /\
    isUpper u2 = true /\ l2 <> [] /\ Forall (fun c => isLower c = true) l2.
Proof.
  intros Hp. assert (Hps := profiles_total pageText).
  unfold Donor.profiles in Hps. rewrite loop_after in Hps. unfold Donor.after in Hps.
  destruct (forFrom _ _ _ _) as [e|st] eqn:Hrun; [done|]. injection Hps as Hps.
  apply run_sourced in Hrun; [|constructor].
  rewrite Forall_forall in Hrun. rewrite <- Hps in Hp.
  destruct (Hrun p Hp) as (i & r & Hr & Hn & _).
  unfold nameMatchAt in Hr. destruct (item _ i) as [line|]; [|done]. cbn in Hr.
  apply exec_namePattern_capture in Hr as (n & Hn' & Hl).
  rewrite Hn in Hn'. injection Hn' as <-. by apply twoWords_shape.
Qed.

(** The second profile of [neighbours]. *)
Lemma donor_names_are_two_capitalised_words_witness :
  exists u1 l1 u2 l2,
    js "Jane Doe" = u1 :: l1 ++ SP :: u2 :: l2 /\
    isUpper u1 = true /\ l1 <> [] /\ Forall (fun c => isLower c = true) l1 /\
    isUpper u2 = true /\ l2 <> [] /\ Forall (fun c => isLower c = true) l2.
Proof.
  apply (donor_names_are_two_capitalised_words neighbours
           (mkDonorProfile (js "Jane Doe") [js "jane@x.com"] [])).
  vm_compute. apply list_elem_of_further, list_elem_of_here.
Defined.

(** X22.  Whatever the three patterns, every profile the loop returns was
    built at a line with a name match: its name is group 1 of that match,
    and each of its emails and phones is a match of a line at most two
    lines away from it. *)
Theorem profile_contacts_come_from_window (np ep pp : regex) (pageText : jsstring)
    (ps : list DonorProfile) (p : DonorProfile) :
  Donor.profiles np ep pp pageText = inr ps -> p ∈ ps ->
  sourced np ep pp (Donor.linesOf pageText) p.
Proof.
  unfold Donor.profiles. rewrite loop_after. unfold Donor.after.
  destruct (forFrom _ _ _ _) as [e|st] eqn:Hrun; [done|]. intros [= <-] Hp.
  apply run_sourced in Hrun; [|constructor].
  rewrite Forall_forall in Hrun. by apply Hrun.
Qed.

(** The first profile of [neighbours]. *)
Lemma profile_contacts_come_from_window_witness :
  sourced namePattern emailPattern phonePattern (Donor.linesOf neighbours)
          (mkDonorProfile (js "John Smith") [js "john@x.com"] [js "12 555 123 4567"]).
Proof.
  apply (profile_contacts_come_from_window namePattern emailPattern phonePattern neighbours
           [mkDonorProfile (js "John Smith") [js "john@x.com"] [js "12 555 123 4567"];
            mkDonorProfile (js "Jane Doe") [js "jane@x.com"] []]).
  - vm_compute. reflexivity.
  - apply list_elem_of_here.
Defined.

Lemma increasing_snoc indices k :
  increasing indices -> Forall (fun i => (i < k)%Z) indices -> increasing (indices ++ [k]).
Proof.
  intros Hinc Hall a b i j Hab Ha Hb.
  assert (Hlen : (b < length (indices ++ [k]))%nat) by (by apply lookup_lt_Some in Hb).
  rewrite length_app in Hlen. cbn in Hlen.
  rewrite lookup_app_l in Ha by lia.
  destruct (decide (b < length indices)%nat) as [Hb'|Hb'].
  - rewrite lookup_app_l in Hb by done. by apply (Hinc a b).
  - rewrite lookup_app_r in Hb by lia.
    replace (b - length indices)%nat with 0%nat in Hb by lia. injection Hb as <-.
    rewrite Forall_forall in Hall. apply Hall. by apply list_elem_of_lookup_2 in Ha.
Qed.

Section Order.
Variables np ep pp : regex.

Lemma step_builtAt lines i st st' :
  step np ep pp lines i st = inr st' ->
  donorProfiles st' = donorProfiles st \/
  exists p r, donorProfiles st' = donorProfiles st ++ [p] /\
              nameMatchAt np lines i = Some r /\ group r 1 = Some (name p).
Proof.
  unfold step. destruct (item lines i) as [line|] eqn:Hline; [|done].
  destruct (Str.match_ line np) as [r|] eqn:Hr; [|intros [= <-]; by left].
  destruct (forUpTo _ _ _ _) as [e|s] eqn:Hw; [done|].
  assert (Hd : donorProfiles (outer s) = donorProfiles st)
    by (by apply window_spec in Hw as (_ & _ & _ & _ & Hd)).
  destruct (_ || _); [|intros [= <-]; by left].
  destruct (group r 1) as [n|] eqn:Hn; [|done].
  case_bool_decide; intros [= <-]; [|by left].
  right. cbn [donorProfiles]. rewrite Hd. eexists _, r. split; [reflexivity|].
  cbn [name]. unfold nameMatchAt. rewrite Hline. cbn. done.
Qed.

Lemma run_builtAt lines count : forall j st st' indices,
  builtAt np lines indices (donorProfiles st) -> increasing indices ->
  Forall (fun i => (i < j)%Z) indices ->
  forFrom j count (step np ep pp lines) st = inr st' ->
  exists indices',
    builtAt np lines indices' (donorProfiles st') /\ increasing indices' /\
    Forall (fun i => (i < j + Z.of_nat count)%Z) indices'.
Proof.
  induction count as [|n IH]; intros j st st' indices Hb Hinc Hlt Hrun.
  - injection Hrun as <-. exists indices. split; [done|]. split; [done|].
    eapply Forall_impl; [exact Hlt|]. cbn. intros; lia.
  - cbn [forFrom] in Hrun.
    destruct (step np ep pp lines j st) as [e|s1] eqn:Hstep; [done|].
    replace (j + Z.of_nat (S n))%Z with (j + 1 + Z.of_nat n)%Z by lia.
    apply step_builtAt in Hstep as [Hsame|(p & r & Hnew & Hr & Hn)].
    + apply (IH (j + 1)%Z s1 st' indices); [by rewrite Hsame|done| |done].
      eapply Forall_impl; [exact Hlt|]. cbn. intros; lia.
    + apply (IH (j + 1)%Z s1 st' (indices ++ [j])); [| | |done].
      * rewrite Hnew. apply Forall2_app; [done|]. constructor; [|constructor]. by exists r.
      * by apply increasing_snoc.
      * apply Forall_app. split; [|constructor; [lia|constructor]].
        eapply Forall_impl; [exact Hlt|]. cbn. intros; lia.
Qed.

End Order.

(** X25.  Whatever the three patterns, the profiles the loop returns were
    built at strictly increasing lines, each named by group 1 of the
    leftmost name match of its line: a line gives at most one profile,
    and the profiles are in line order. *)
Theorem profiles_follow_line_order (np ep pp : regex) (pageText : jsstring)
    (ps : list DonorProfile) :
  Donor.profiles np ep pp pageText = inr ps ->
  exists indices,
    builtAt np (Donor.linesOf pageText) indices ps /\ increasing indices.
Proof.
  unfold Donor.profiles. rewrite loop_after. unfold Donor.after.
  destruct (forFrom _ _ _ _) as [e|st] eqn:Hrun; [done|]. intros [= <-].
  apply (run_builtAt np ep pp _ _ _ _ _ []) in Hrun as (indices & Hb & Hinc & _).
  - by exists indices.
  - constructor.
  - intros a b i j _ Ha. by rewrite lookup_nil in Ha.
  - constructor.
Qed.

(** A line with two names: the pattern matches both, the loop makes a
    profile for the first only. *)
Lemma profiles_follow_line_order_witness :
  (exists indices,
     builtAt namePattern (Donor.linesOf twoNames) indices
       [mkDonorProfile (js "John Smith") [js "john@x.com"; js "jane@x.com"] []] /\
     increasing indices) /\
  orEmpty (Str.match_g (js "John Smith and Jane Doe")
             (Cat [WordBoundary; twoWords; WordBoundary]))
    = [js "John Smith"; js "Jane Doe"].
Proof.
  split.
  - apply (profiles_follow_line_order namePattern emailPattern phonePattern twoNames).
    vm_compute. reflexivity.
  - vm_compute. reflexivity.
Defined.

Lemma step_listed lines i st st' :
  listed st -> step namePattern emailPattern phonePattern lines i st = inr st' ->
  listed st' /\ exists later, donorProfiles st' = donorProfiles st ++ later.
Proof.
  intros [He Hp]. unfold step. destruct (item lines i) as [line|]; [|done].
  destruct (Str.match_ line namePattern) as [r|] eqn:Hr.
  2:{ intros [= <-]. split; [done|]. exists []. by rewrite app_nil_r. }
  destruct (forUpTo _ _ _ _) as [e|s] eqn:Hw; [done|].
  apply window_spec in Hw as ((Hue & _) & (Hup & _) & _ & _ & Hd).
  apply exec_namePattern_group in Hr as (n & -> & Hlen).
  rewrite (bool_decide_eq_true_2 (4 < length n)%nat) by lia.
  destruct (_ || _) eqn:Hgate; intros [= <-].
  - split; [|eexists; cbn [donorProfiles]; by rewrite Hd].
    unfold listed. cbn [donorProfiles usedEmails usedPhones].
    rewrite Hue, Hup, Hd, !bind_app, !bind_singleton. cbn [emails phones].
    split; intros x; rewrite !elem_of_app; (intros [Hx|Hx]; [left; auto|by right]).
  - apply orb_false_iff in Hgate as [H1 H2].
    apply bool_decide_eq_false in H1, H2.
    destruct (emailsFound s); [|cbn in H1; lia]. destruct (phonesFound s); [|cbn in H2; lia].
    rewrite app_nil_r in Hue, Hup. split; [|exists []; by rewrite app_nil_r, Hd].
    unfold listed. rewrite Hue, Hup, Hd. done.
Qed.

Lemma run_listed lines count : forall j st st',
  listed st -> forFrom j count (step namePattern emailPattern phonePattern lines) st = inr st' ->
  listed st' /\ exists later, donorProfiles st' = donorProfiles st ++ later.
Proof.
  induction count as [|n IH]; intros j st st' Hst Hrun.
  - injection Hrun as <-. split; [done|]. exists []. by rewrite app_nil_r.
  - cbn [forFrom] in Hrun.
    destruct (step namePattern emailPattern phonePattern lines j st) as [e|s1] eqn:Hstep; [done|].
    destruct (step_listed _ _ _ _ Hst Hstep) as [Hs1 (l1 & Hl1)].
    destruct (IH _ _ _ Hs1 Hrun) as [Hst' (l2 & Hl2)].
    split; [done|]. exists (l1 ++ l2). by rewrite Hl2, Hl1, app_assoc.
Qed.

Lemma listed_initial : listed initial.
Proof. split; intros x Hx; by apply elem_of_nil in Hx. Qed.

(** X23.  With the patterns of the script, every email and every cleaned
    phone matched in a line at most two lines away from a line with a
    name match is listed in a profile. *)
Theorem contacts_near_a_name_are_listed (pageText : jsstring) (i : nat) (r : MatchResult)
    (k : Z) (l : jsstring) :
  nameMatchAt namePattern (Donor.linesOf pageText) (Z.of_nat i) = Some r ->
  (Donor.windowLo (Z.of_nat i) <= k <= Donor.windowHi (Donor.linesOf pageText) (Z.of_nat i))%Z ->
  Donor.item (Donor.linesOf pageText) k = Some l ->
  (forall x, x ∈ Donor.emailMatches emailPattern l ->
     exists p, p ∈ donorsOf pageText /\ x ∈ emails p) /\
  (forall x, x ∈ Donor.phoneMatches phonePattern l ->
     exists p, p ∈ donorsOf pageText /\ x ∈ phones p).
Proof.
  set (lines := Donor.linesOf pageText). intros Hname Hk Hl.
  assert (Hi : (i < length lines)%nat).
  { unfold nameMatchAt, Donor.item in Hname.
    destruct (Z.ltb_spec (Z.of_nat i) 0); [done|]. rewrite Nat2Z.id in Hname.
    destruct (lines !! i) as [line|] eqn:Hline; [|done]. by apply lookup_lt_Some in Hline. }
  assert (Hps := profiles_total pageText). unfold Donor.profiles in Hps. fold lines in Hps.
  destruct (loop namePattern emailPattern phonePattern lines) as [e|final] eqn:Hloop; [done|].
  injection Hps as Hps.
  destruct (loop_split _ _ _ _ i final Hi Hloop) as (st & Hafter & Hrest).
  destruct (after_split _ _ _ _ _ _ Hafter) as (before & Hbefore & Hstep).
  unfold Donor.after in Hbefore.
  destruct (run_listed _ _ _ _ _ listed_initial Hbefore) as [Hlb _].
  destruct (step_listed _ _ _ _ Hlb Hstep) as [[Hle Hlp] _].
  destruct (run_listed _ _ _ _ _ (conj Hle Hlp) Hrest) as [_ (later & Hlater)].
  apply step_spec in Hstep as (_ & _ & _ & _ & _ & Hcov).
  destruct (Hcov r Hname) as (Hce & Hcp & _).
  split; intros x Hx.
  - specialize (Hle x (Hce k l x Hk Hl Hx)).
    apply list_elem_of_bind in Hle as (p & Hxp & Hp). exists p. split; [|done].
    rewrite <- Hps, Hlater, elem_of_app. by left.
  - specialize (Hlp x (Hcp k l x Hk Hl Hx)).
    apply list_elem_of_bind in Hlp as (p & Hxp & Hp). exists p. split; [|done].
    rewrite <- Hps, Hlater, elem_of_app. by left.
Qed.

(** The second line of [neighbours], next to the name of the first. *)
Lemma contacts_near_a_name_are_listed_witness :
  (forall x, x ∈ Donor.emailMatches emailPattern (js "john@x.com 12 555 123 4567") ->
     exists p, p ∈ donorsOf neighbours /\ x ∈ emails p) /\
  (forall x, x ∈ Donor.phoneMatches phonePattern (js "john@x.com 12 555 123 4567") ->
     exists p, p ∈ donorsOf neighbours /\ x ∈ phones p).
Proof.
  eapply (contacts_near_a_name_are_listed neighbours 0 _ 1).
  - vm_compute. reflexivity.
  - vm_compute. split; discriminate.
  - vm_compute. reflexivity.
Defined.
